(** * Idolly agents: the task-execution core

    A shallow embedding of [agent/agents/base_agent.py] (class [BaseAgent])
    and [agent/agents/idol_agent.py] (class [IdolAgent]).

    - Python values are a JSON-like inductive type; dicts are association
      lists in insertion order whose keys are pairwise distinct.  Floats
      are left out: no method modelled here inspects one.  A [str] is the
      UTF-8 encoding of its code points, so that equality and
      concatenation are those of the bytes, while indexing and [len]
      count code points.
    - The object [self] is a record; the three collaborators
      ([story_client], [style_mixer], [ipfs_client]), the content
      generator, the clock and the random generator are an interface
      acting on an abstract world.
    - An [async def] body is a computation in a state-and-exception monad
      that keeps the state reached when an exception is raised: Python
      does not undo assignments.  Exceptions are the subclasses of
      [Exception]; calls to [logger] have no effect on the agent and are
      left out, except where building the message can raise.
    - The execution loop is a transition system whose steps are the
      stretches of code between two suspension points of the coroutine,
      interleaved with the calls other coroutines make on the agent. *)

From Stdlib Require Import List String Ascii ZArith Bool Lia DecimalString QArith
  Sorted.
Import ListNotations.
Local Open Scope string_scope.
Local Open Scope Z_scope.

Set Implicit Arguments.
Set Warnings "-register-all".
Set Printing Projections.

(** ** Python values *)

Module Py.

Inductive value : Type :=
| VNone
| VBool (b : bool)
| VInt (n : Z)
| VStr (s : string)
| VList (l : list value)
| VDict (d : list (string * value)).

Definition dict := list (string * value).

(** [d.get(k)] without the default. *)
Fixpoint lookup (k : string) (d : dict) : option value :=
  match d with
  | [] => None
  | (k', v) :: d' => if String.eqb k k' then Some v else lookup k d'
  end.

(** [d.get(k)]: the default is [None]. *)
Definition get (d : dict) (k : string) : value :=
  match lookup k d with Some v => v | None => VNone end.

(** [d.get(k, dflt)]. *)
Definition get_default (d : dict) (k : string) (dflt : value) : value :=
  match lookup k d with Some v => v | None => dflt end.

Definition bool_int (b : bool) : Z := if b then 1 else 0.

(** [a == b].  [bool] is a subclass of [int]; two dicts are equal when they
    have the same keys with equal values, whatever the insertion order. *)
Fixpoint eqv (a b : value) {struct a} : bool :=
  match a, b with
  | VNone, VNone => true
  | VBool x, VBool y => Bool.eqb x y
  | VBool x, VInt n => bool_int x =? n
  | VInt n, VBool y => n =? bool_int y
  | VInt n, VInt m => n =? m
  | VStr s, VStr t => String.eqb s t
  | VList l, VList m =>
      (fix eql (l m : list value) {struct l} : bool :=
         match l, m with
         | [], [] => true
         | x :: l', y :: m' => eqv x y && eql l' m'
         | _, _ => false
         end) l m
  | VDict d, VDict e =>
      forallb (fun kv : string * value =>
                 match kv with
                 | (k, v) =>
                     existsb (fun kw : string * value =>
                                String.eqb k (fst kw) && eqv v (snd kw)) e
                 end) d
      && forallb (fun kw : string * value =>
                    existsb (fun kv : string * value =>
                               match kv with
                               | (k, v) => String.eqb k (fst kw) && eqv v (snd kw)
                               end) d) e
  | _, _ => false
  end.

(** [bool(v)], the test behind [if v] and [not v]. *)
Definition truthy (v : value) : bool :=
  match v with
  | VNone => false
  | VBool b => b
  | VInt n => negb (n =? 0)
  | VStr s => negb (String.eqb s "")
  | VList l => match l with [] => false | _ => true end
  | VDict d => match d with [] => false | _ => true end
  end.

(** Exceptions: the classes that the modelled code or the interpreter
    raise, and [External] for whatever else a collaborator raises, with
    its [str(e)]. *)
Inductive exn : Type :=
| ValueError (msg : string)
| KeyError (key : value)
| IndexError (msg : string)
| TypeError (msg : string)
| AttributeError (msg : string)
| External (msg : string).

Definition type_name (v : value) : string :=
  match v with
  | VNone => "NoneType"
  | VBool _ => "bool"
  | VInt _ => "int"
  | VStr _ => "str"
  | VList _ => "list"
  | VDict _ => "dict"
  end.

Definition not_subscriptable (v : value) : exn :=
  TypeError ("'" ++ type_name v ++ "' object is not subscriptable").

(** The code points of a [str], each as the string of its UTF-8 bytes: a
    byte [10xxxxxx] continues the code point begun before it.  Bytes of
    that form at the start of the string, which no encoding of a [str]
    has, are kept together as one item. *)
Definition is_continuation (c : ascii) : bool :=
  let n := nat_of_ascii c in ((128 <=? n) && (n <? 192))%nat.

Fixpoint scan (s : string) : string * list string :=
  match s with
  | EmptyString => (EmptyString, [])
  | String c rest =>
      let (pending, found) := scan rest in
      if is_continuation c then (String c pending, found)
      else (EmptyString, String c pending :: found)
  end.

Definition chars (s : string) : list string :=
  let (pending, found) := scan s in
  match pending with
  | EmptyString => found
  | _ => pending :: found
  end.

(** [v[0]]. *)
Definition item0 (v : value) : exn + value :=
  match v with
  | VList (x :: _) => inr x
  | VList [] => inl (IndexError "list index out of range")
  | VStr s =>
      match chars s with
      | c :: _ => inr (VStr c)
      | [] => inl (IndexError "string index out of range")
      end
  | VDict _ => inl (KeyError (VInt 0))
  | _ => inl (not_subscriptable v)
  end.

(** [len(v)]. *)
Definition len (v : value) : exn + nat :=
  match v with
  | VList l => inr (List.length l)
  | VStr s => inr (List.length (chars s))
  | VDict d => inr (List.length d)
  | _ => inl (TypeError ("object of type '" ++ type_name v ++ "' has no len()"))
  end.

(** [v[i]] for an index [i] below [len(v)]. *)
Definition item (v : value) (i : nat) : exn + value :=
  match v with
  | VList l =>
      match nth_error l i with
      | Some x => inr x
      | None => inl (IndexError "list index out of range")
      end
  | VStr s =>
      match nth_error (chars s) i with
      | Some c => inr (VStr c)
      | None => inl (IndexError "string index out of range")
      end
  | VDict _ => inl (KeyError (VInt (Z.of_nat i)))
  | _ => inl (not_subscriptable v)
  end.

(** [l[-n:]]: the last [n] elements, the whole list when it is shorter. *)
Definition last_n {A : Type} (n : nat) (l : list A) : list A :=
  skipn (List.length l - n) l.

End Py.
Import Py.

(** ** Records kept by an agent *)

(** A point in time, in microseconds ([datetime] has that resolution). *)
Definition time := Z.

(** A task is a dict: [Dict[str, Any]]. *)
Definition task := dict.

(** An element of [licensed_ips]: the dict with keys [ip_id],
    [license_tokens] and [licensed_at]. *)
Record license_record : Type := {
  lic_ip_id : value;
  lic_license_tokens : value;
  lic_licensed_at : time
}.

(** An element of [created_derivatives].  [generate_content] stores
    [ip_id], [content_type], [created_at] and [metadata]; [create_remix]
    stores [ip_id], [content_type], [style_ip] and [created_at]. *)
Record derivative_record : Type := {
  der_ip_id : value;
  der_content_type : value;
  der_style_ip : option value;
  der_created_at : time;
  der_metadata : option dict
}.

(** An element of [execution_history]. *)
Record history_entry : Type := {
  h_task : task;
  h_result : dict;
  h_timestamp : time
}.

(** The fields of an [IdolAgent], those of [BaseAgent] first. *)
Record agent : Type := {
  agent_id : string;
  config : dict;
  is_active : bool;
  created_at : time;
  last_activity : option time;
  tasks_queue : list task;
  execution_history : list history_entry;
  idol_id : string;
  idol_metadata : dict;
  content_strategy : dict;
  posting_schedule : list time;
  licensed_ips : list license_record;
  created_derivatives : list derivative_record
}.

Definition set_is_active (b : bool) (a : agent) : agent :=
  {| agent_id := a.(agent_id); config := a.(config); is_active := b;
     created_at := a.(created_at); last_activity := a.(last_activity);
     tasks_queue := a.(tasks_queue);
     execution_history := a.(execution_history);
     idol_id := a.(idol_id); idol_metadata := a.(idol_metadata);
     content_strategy := a.(content_strategy);
     posting_schedule := a.(posting_schedule);
     licensed_ips := a.(licensed_ips);
     created_derivatives := a.(created_derivatives) |}.

Definition set_last_activity (t : option time) (a : agent) : agent :=
  {| agent_id := a.(agent_id); config := a.(config);
     is_active := a.(is_active);
     created_at := a.(created_at); last_activity := t;
     tasks_queue := a.(tasks_queue);
     execution_history := a.(execution_history);
     idol_id := a.(idol_id); idol_metadata := a.(idol_metadata);
     content_strategy := a.(content_strategy);
     posting_schedule := a.(posting_schedule);
     licensed_ips := a.(licensed_ips);
     created_derivatives := a.(created_derivatives) |}.

Definition set_tasks_queue (q : list task) (a : agent) : agent :=
  {| agent_id := a.(agent_id); config := a.(config);
     is_active := a.(is_active);
     created_at := a.(created_at); last_activity := a.(last_activity);
     tasks_queue := q;
     execution_history := a.(execution_history);
     idol_id := a.(idol_id); idol_metadata := a.(idol_metadata);
     content_strategy := a.(content_strategy);
     posting_schedule := a.(posting_schedule);
     licensed_ips := a.(licensed_ips);
     created_derivatives := a.(created_derivatives) |}.

Definition set_execution_history (h : list history_entry) (a : agent) : agent :=
  {| agent_id := a.(agent_id); config := a.(config);
     is_active := a.(is_active);
     created_at := a.(created_at); last_activity := a.(last_activity);
     tasks_queue := a.(tasks_queue);
     execution_history := h;
     idol_id := a.(idol_id); idol_metadata := a.(idol_metadata);
     content_strategy := a.(content_strategy);
     posting_schedule := a.(posting_schedule);
     licensed_ips := a.(licensed_ips);
     created_derivatives := a.(created_derivatives) |}.

Definition set_licensed_ips (l : list license_record) (a : agent) : agent :=
  {| agent_id := a.(agent_id); config := a.(config);
     is_active := a.(is_active);
     created_at := a.(created_at); last_activity := a.(last_activity);
     tasks_queue := a.(tasks_queue);
     execution_history := a.(execution_history);
     idol_id := a.(idol_id); idol_metadata := a.(idol_metadata);
     content_strategy := a.(content_strategy);
     posting_schedule := a.(posting_schedule);
     licensed_ips := l;
     created_derivatives := a.(created_derivatives) |}.

Definition set_created_derivatives (l : list derivative_record) (a : agent)
  : agent :=
  {| agent_id := a.(agent_id); config := a.(config);
     is_active := a.(is_active);
     created_at := a.(created_at); last_activity := a.(last_activity);
     tasks_queue := a.(tasks_queue);
     execution_history := a.(execution_history);
     idol_id := a.(idol_id); idol_metadata := a.(idol_metadata);
     content_strategy := a.(content_strategy);
     posting_schedule := a.(posting_schedule);
     licensed_ips := a.(licensed_ips);
     created_derivatives := l |}.

(** ** The collaborators *)

(** The [parameters] argument of [style_mixer.apply_style]. *)
Record style_parameters : Type := {
  style_strength : Q;
  preserve_identity : bool
}.

(** A request sent to a collaborator. *)
Inductive call : Type :=
| MintLicenseTokens (ip_id : value) (amount : Z) (receiver : value)
| CreateDerivativeContent (parent_ip_id : value) (content_metadata : dict)
    (license_token_ids : option (list value))
| ClaimRoyalties (ip_id : value) (child_ip_ids : list value)
| ApplyStyle (base_ip_id style_ip_id : value) (parameters : style_parameters)
| UploadJson (data : value)
| CreateContent (params : dict).

Definition is_mint (c : call) : bool :=
  match c with MintLicenseTokens _ _ _ => true | _ => false end.

Definition is_apply_style (c : call) : bool :=
  match c with ApplyStyle _ _ _ => true | _ => false end.

(** What the agent is given at construction and what it takes from the
    standard library, over a world [W] that none of the agent's code sees:
    every request answers with a result or raises, and moves the world. *)
Record Env (W : Type) : Type := {
  mint_license_tokens : value -> Z -> value -> W -> (exn + dict) * W;
  create_derivative_content :
    value -> dict -> option (list value) -> W -> (exn + dict) * W;
  claim_royalties : value -> list value -> W -> (exn + dict) * W;
  apply_style : value -> value -> style_parameters -> W -> (exn + dict) * W;
  upload_json : value -> W -> (exn + string) * W;
  create_content : dict -> W -> (exn + dict) * W;
  (** [datetime.utcnow()] *)
  utcnow : W -> time * W;
  (** the draw behind [random.choice], for a sequence of the given length *)
  randbelow : nat -> W -> nat * W;
  (** [repr(v)] *)
  repr : value -> string;
  (** [t.isoformat()] *)
  isoformat : time -> string
}.

(** The three generators behind [ContentGenerator.create_content]: the image
    server, the text model and the simulated video. *)
Record Generators (W : Type) : Type := {
  _generate_image : dict -> W -> (exn + dict) * W;
  _generate_text : dict -> W -> (exn + dict) * W;
  _generate_video : dict -> W -> (exn + dict) * W
}.

(** ** A stub environment

    The world of the stub counts the requests it has answered; minting
    fails for the IP ["bad"], style application fails for the IP
    ["broken"], everything else succeeds. *)
Module Stub.

Definition world := nat.

Definition mint (ip : value) (amount : Z) (receiver : value) (w : world)
  : (exn + dict) * world :=
  if eqv ip (VStr "bad") then (inl (External "mint refused"), S w)
  else (inr [("license_token_ids", VList [VInt (Z.of_nat w)])], S w).

Definition derive (parent : value) (meta : dict) (toks : option (list value))
  (w : world) : (exn + dict) * world :=
  (inr [("ip_id", VStr "child"); ("tx", VInt (Z.of_nat w))], S w).

Definition claim (ip : value) (children : list value) (w : world)
  : (exn + dict) * world :=
  (inr [("claimed_amount", VInt (Z.of_nat (List.length children)))], S w).

Definition style (base style_ip : value) (p : style_parameters) (w : world)
  : (exn + dict) * world :=
  if eqv style_ip (VStr "broken") then (inl (External "mixer down"), S w)
  else (inr [("ip_id", VStr "remix"); ("metadata", VDict [])], S w).

Definition upload (data : value) (w : world) : (exn + string) * world :=
  (inr "Qm", S w).

Definition content (params : dict) (w : world) : (exn + dict) * world :=
  (inr [("ip_id", VStr "content"); ("metadata", VDict params)], S w).

Definition env : Env world := {|
  mint_license_tokens := mint;
  create_derivative_content := derive;
  claim_royalties := claim;
  apply_style := style;
  upload_json := upload;
  create_content := content;
  utcnow := fun w => (Z.of_nat w, w);
  randbelow := fun n w => (0%nat, w);
  repr := fun v => match v with VStr s => "'" ++ s ++ "'" | _ => "?" end;
  isoformat := fun t => NilZero.string_of_int (Z.to_int t)
|}.

(** The agent that [IdolAgent("0xabc", {}, ..., config={})] builds at time
    0, and a few tasks. *)
Definition agent0 : agent := {|
  agent_id := "idol-0xabc";
  config := [];
  is_active := false;
  created_at := 0;
  last_activity := None;
  tasks_queue := [];
  execution_history := [];
  idol_id := "0xabc";
  idol_metadata := [];
  content_strategy :=
    [("posting_frequency", VStr "2_hours");
     ("content_types", VList [VStr "image"; VStr "text"; VStr "remix"]);
     ("style_preferences", VDict [])];
  posting_schedule := map (fun i => 7200000000 * Z.of_nat i) (seq 0 12);
  licensed_ips := [];
  created_derivatives := []
|}.

(** The same agent once it holds a license on ["s0"] and two on ["s1"]. *)
Definition licensed_agent : agent :=
  set_licensed_ips
    [{| lic_ip_id := VStr "s0"; lic_license_tokens := VList [VInt 5];
        lic_licensed_at := 1 |};
     {| lic_ip_id := VStr "s1"; lic_license_tokens := VList [VInt 7; VInt 8];
        lic_licensed_at := 2 |};
     {| lic_ip_id := VStr "s1"; lic_license_tokens := VList [VInt 9];
        lic_licensed_at := 3 |}]
    agent0.

Definition royalty_task (n : nat) : task :=
  [("type", VStr "claim_royalties"); ("n", VInt (Z.of_nat n))].

Definition tasks (n : nat) : list task := map royalty_task (seq 0 n).

Definition remix_task (style_ip : string) : task :=
  [("type", VStr "create_remix"); ("style_ip_id", VStr style_ip)].

Definition untyped_task : task := [("content_type", VStr "image")].

(** Generators that answer with the kind of content asked for. *)
Definition made (kind : string) (params : dict) (w : world)
  : (exn + dict) * world :=
  (inr [("ip_id", VStr kind); ("metadata", VDict params)], S w).

Definition generators : Generators world := {|
  _generate_image := made "image";
  _generate_text := made "text";
  _generate_video := made "video"
|}.

(** An agent that is running and has one remix on record. *)
Definition agent1 : agent :=
  set_created_derivatives
    [{| der_ip_id := VStr "child"; der_content_type := VStr "remix";
        der_style_ip := Some (VStr "s1"); der_created_at := 4;
        der_metadata := None |}]
    (set_is_active true agent0).

(** The stub environment with a random generator that always draws [i]. *)
Definition env_drawing (i : nat) : Env world := {|
  mint_license_tokens := mint;
  create_derivative_content := derive;
  claim_royalties := claim;
  apply_style := style;
  upload_json := upload;
  create_content := content;
  utcnow := fun w => (Z.of_nat w, w);
  randbelow := fun n w => (i, w);
  repr := fun v => match v with VStr s => "'" ++ s ++ "'" | _ => "?" end;
  isoformat := fun t => NilZero.string_of_int (Z.to_int t)
|}.

(** A stub environment whose world is the time on the clock: every request
    succeeds with an empty answer and takes no time. *)
Definition on_the_clock : Env Z := {|
  mint_license_tokens := fun _ _ _ w => (inr [], w);
  create_derivative_content := fun _ _ _ w => (inr [], w);
  claim_royalties := fun _ _ w => (inr [], w);
  apply_style := fun _ _ _ w => (inr [], w);
  upload_json := fun _ w => (inr "Qm", w);
  create_content := fun _ w => (inr [], w);
  utcnow := fun w => (w, w);
  randbelow := fun n w => (0%nat, w);
  repr := fun v => match v with VStr s => "'" ++ s ++ "'" | _ => "?" end;
  isoformat := fun t => NilZero.string_of_int (Z.to_int t)
|}.

(** Three derivatives, two remixes around one image, the image the
    latest. *)
Definition derivatives3 : list derivative_record :=
  [{| der_ip_id := VStr "a"; der_content_type := VStr "remix";
      der_style_ip := Some (VStr "s1"); der_created_at := 10;
      der_metadata := None |};
   {| der_ip_id := VStr "b"; der_content_type := VStr "image";
      der_style_ip := None; der_created_at := 30;
      der_metadata := Some [] |};
   {| der_ip_id := VStr "c"; der_content_type := VStr "remix";
      der_style_ip := Some (VStr "s2"); der_created_at := 20;
      der_metadata := None |}].

(** A derivative whose content type is a list, then one whose content
    type is a dict. *)
Definition odd_derivatives : list derivative_record :=
  [{| der_ip_id := VStr "d"; der_content_type := VList [VStr "image"];
      der_style_ip := None; der_created_at := 40;
      der_metadata := None |};
   {| der_ip_id := VStr "e"; der_content_type := VDict [];
      der_style_ip := None; der_created_at := 50;
      der_metadata := None |}].

Definition license_task (ip : string) : task :=
  [("type", VStr "license_ip"); ("target_ip_id", VStr ip)].

End Stub.

(** ** Method bodies *)

Section Agent.

Context {W : Type}.
Variable E : Env W.

(** What a method body acts on: the object, the world outside, and the
    requests sent to the collaborators so far, oldest first (what a stub
    collaborator would record). *)
Record state : Type := {
  self : agent;
  world : W;
  calls : list call
}.

(** A method body: it ends with a value or with a raised exception, and in
    both cases with the state it has reached. *)
Definition M (A : Type) : Type := state -> (exn + A) * state.

Definition ret {A : Type} (x : A) : M A := fun s => (inr x, s).

Definition raise {A : Type} (e : exn) : M A := fun s => (inl e, s).

Definition bind {A B : Type} (m : M A) (k : A -> M B) : M B :=
  fun s =>
    match m s with
    | (inr x, s') => k x s'
    | (inl e, s') => (inl e, s')
    end.

Notation "x <- m ;; k" := (bind m (fun x => k))
  (at level 61, m at next level, right associativity).
Notation "m ;;; k" := (bind m (fun _ => k))
  (at level 61, right associativity).

(** [try: m except Exception as e: h e]. *)
Definition try_except {A : Type} (m : M A) (h : exn -> M A) : M A :=
  fun s =>
    match m s with
    | (inr x, s') => (inr x, s')
    | (inl e, s') => h e s'
    end.

(** A pure operation that can raise. *)
Definition lift {A : Type} (r : exn + A) : M A := fun s => (r, s).

(** Reading and updating [self]. *)
Definition attr {A : Type} (f : agent -> A) : M A :=
  fun s => (inr (f s.(self)), s).

Definition update (f : agent -> agent) : M unit :=
  fun s =>
    (inr tt, {| self := f s.(self); world := s.(world); calls := s.(calls) |}).

(** A request to a collaborator: recorded, then answered by the world. *)
Definition request {A : Type} (c : call) (f : W -> (exn + A) * W) : M A :=
  fun s =>
    let (r, w) := f s.(world) in
    (r, {| self := s.(self); world := w; calls := s.(calls) ++ [c] |}).

(** A reading taken from the world (clock, random generator). *)
Definition observe {A : Type} (f : W -> A * W) : M A :=
  fun s =>
    let (x, w) := f s.(world) in
    (inr x, {| self := s.(self); world := w; calls := s.(calls) |}).

Definition now : M time := observe E.(utcnow).

(** [d[k]] on a dict. *)
Definition subscript (d : dict) (k : string) : exn + value :=
  match lookup k d with
  | Some v => inr v
  | None => inl (KeyError (VStr k))
  end.

(** [str(v)], which is also what an f-string does with [{v}]. *)
Definition str (v : value) : string :=
  match v with
  | VStr s => s
  | VNone => "None"
  | VBool true => "True"
  | VBool false => "False"
  | VInt n => NilZero.string_of_int (Z.to_int n)
  | _ => E.(repr) v
  end.

(** [str(e)] for an exception: a [KeyError] shows the [repr] of its key. *)
Definition str_exn (e : exn) : string :=
  match e with
  | KeyError k => E.(repr) k
  | ValueError m | IndexError m | TypeError m | AttributeError m
  | External m => m
  end.

(** [random.choice(seq)]. *)
Definition random_choice (seq : value) : M value :=
  n <- lift (len seq) ;;
  match n with
  | O => raise (IndexError "Cannot choose from an empty sequence")
  | S _ =>
      i <- observe (E.(randbelow) n) ;;
      lift (item seq (Nat.modulo i n))
  end.

(** *** [IdolAgent.generate_content] *)
Definition generate_content (content_type : value) : M dict :=
  content_type <-
    (if truthy content_type then ret content_type
     else
       strategy <- attr content_strategy ;;
       types <- lift (subscript strategy "content_types") ;;
       random_choice types) ;;
  meta <- attr idol_metadata ;;
  let content_params :=
    [("idol_name", get meta "name");
     ("personality", get meta "personality");
     ("style", get meta "style");
     ("content_type", content_type)] in
  generated_content <-
    request (CreateContent content_params) (E.(create_content) content_params) ;;
  data <- lift (subscript generated_content "metadata") ;;
  ipfs_hash <- request (UploadJson data) (E.(upload_json) data) ;;
  t <- now ;;
  let ip_metadata :=
    [("metadata_uri", VStr ("ipfs://" ++ ipfs_hash));
     ("nft_metadata_uri", VStr ("ipfs://" ++ ipfs_hash));
     ("content_type", content_type);
     ("generated_at", VStr (E.(isoformat) t))] in
  parent <- attr idol_id ;;
  child <- lift (subscript generated_content "ip_id") ;;
  let content_metadata :=
    ("child_ip_id", child) :: ("license_terms_ids", VList [VStr "1"])
      :: ip_metadata in
  derivative_ip <-
    request (CreateDerivativeContent (VStr parent) content_metadata None)
      (E.(create_derivative_content) (VStr parent) content_metadata None) ;;
  ip <- lift (subscript derivative_ip "ip_id") ;;
  t' <- now ;;
  update (fun a =>
            set_created_derivatives
              (a.(created_derivatives)
                 ++ [{| der_ip_id := ip; der_content_type := content_type;
                        der_style_ip := None; der_created_at := t';
                        der_metadata := Some ip_metadata |}]) a) ;;;
  ret derivative_ip.

(** *** [IdolAgent.license_external_ip] *)
Definition license_external_ip (target_ip_id : value) : M dict :=
  receiver <- attr idol_id ;;
  license_result <-
    request (MintLicenseTokens target_ip_id 1 (VStr receiver))
      (E.(mint_license_tokens) target_ip_id 1 (VStr receiver)) ;;
  tokens <- lift (subscript license_result "license_token_ids") ;;
  t <- now ;;
  update (fun a =>
            set_licensed_ips
              (a.(licensed_ips)
                 ++ [{| lic_ip_id := target_ip_id;
                        lic_license_tokens := tokens;
                        lic_licensed_at := t |}]) a) ;;;
  ret license_result.

(** [next((lic for lic in licensed_ips if lic["ip_id"] == style_ip_id), None)] *)
Definition find_license (style_ip_id : value) (l : list license_record)
  : option license_record :=
  find (fun lic => eqv lic.(lic_ip_id) style_ip_id) l.

(** The literal [{"style_strength": 0.7, "preserve_identity": True}]. *)
Definition remix_parameters : style_parameters :=
  {| style_strength := (7 # 10)%Q; preserve_identity := true |}.

(** *** [IdolAgent.create_remix] *)
Definition create_remix (style_ip_id : value) : M dict :=
  licensed <- attr licensed_ips ;;
  license_token_id <-
    match find_license style_ip_id licensed with
    | None =>
        license_result <- license_external_ip style_ip_id ;;
        tokens <- lift (subscript license_result "license_token_ids") ;;
        lift (item0 tokens)
    | Some existing_license => lift (item0 existing_license.(lic_license_tokens))
    end ;;
  base <- attr idol_id ;;
  remix_content <-
    request (ApplyStyle (VStr base) style_ip_id remix_parameters)
      (E.(apply_style) (VStr base) style_ip_id remix_parameters) ;;
  data <- lift (subscript remix_content "metadata") ;;
  ipfs_hash <- request (UploadJson data) (E.(upload_json) data) ;;
  parent <- attr idol_id ;;
  child <- lift (subscript remix_content "ip_id") ;;
  let content_metadata :=
    [("child_ip_id", child);
     ("metadata_uri", VStr ("ipfs://" ++ ipfs_hash));
     ("nft_metadata_uri", VStr ("ipfs://" ++ ipfs_hash))] in
  derivative_result <-
    request
      (CreateDerivativeContent (VStr parent) content_metadata
         (Some [license_token_id]))
      (E.(create_derivative_content) (VStr parent) content_metadata
         (Some [license_token_id])) ;;
  ip <- lift (subscript derivative_result "ip_id") ;;
  t <- now ;;
  update (fun a =>
            set_created_derivatives
              (a.(created_derivatives)
                 ++ [{| der_ip_id := ip; der_content_type := VStr "remix";
                        der_style_ip := Some style_ip_id; der_created_at := t;
                        der_metadata := None |}]) a) ;;;
  ret derivative_result.

(** *** [IdolAgent.claim_accumulated_royalties] *)
Definition claim_accumulated_royalties : M dict :=
  derivatives <- attr created_derivatives ;;
  match derivatives with
  | [] => ret [("status", VStr "no_derivatives"); ("claimed", VInt 0)]
  | _ :: _ =>
      let child_ip_ids := map der_ip_id derivatives in
      ip <- attr idol_id ;;
      request (ClaimRoyalties (VStr ip) child_ip_ids)
        (E.(claim_royalties) (VStr ip) child_ip_ids)
  end.

(** *** The four task methods *)
Definition _generate_content_task (t : task) : M dict :=
  let content_type := get t "content_type" in
  result <- generate_content content_type ;;
  ret [("status", VStr "success"); ("content", VDict result)].

Definition _license_ip_task (t : task) : M dict :=
  let target_ip := get t "target_ip_id" in
  result <- license_external_ip target_ip ;;
  ret [("status", VStr "success"); ("license", VDict result)].

Definition _create_remix_task (t : task) : M dict :=
  let style_ip := get t "style_ip_id" in
  result <- create_remix style_ip ;;
  ret [("status", VStr "success"); ("remix", VDict result)].

Definition _claim_royalties_task (t : task) : M dict :=
  result <- claim_accumulated_royalties ;;
  ret [("status", VStr "success"); ("royalties", VDict result)].

(** *** [IdolAgent.execute_task]

    [dispatch] is the body of the [try]; [execute_task] adds the handler. *)
Definition dispatch (t : task) : M dict :=
  let task_type := get t "type" in
  if eqv task_type (VStr "generate_content") then _generate_content_task t
  else if eqv task_type (VStr "license_ip") then _license_ip_task t
  else if eqv task_type (VStr "create_remix") then _create_remix_task t
  else if eqv task_type (VStr "claim_royalties") then _claim_royalties_task t
  else raise (ValueError ("Unknown task type: " ++ str task_type)).

Definition error_result (e : exn) : dict :=
  [("status", VStr "error"); ("error", VStr (str_exn e))].

Definition execute_task (t : task) : M dict :=
  try_except (dispatch t) (fun e => ret (error_result e)).

(** *** [IdolAgent.__init__]

    [config] is [None] when the caller leaves it out; the posting schedule
    covers the next 24 hours. *)
Definition hour : Z := 3600 * 1000000.

Definition default_content_strategy (idol_metadata : dict) : dict :=
  [("posting_frequency", VStr "2_hours");
   ("content_types", VList [VStr "image"; VStr "text"; VStr "remix"]);
   ("style_preferences", get_default idol_metadata "style" (VDict []))].

Definition no_attribute (v : value) (name : string) : exn :=
  AttributeError
    ("'" ++ type_name v ++ "' object has no attribute '" ++ name ++ "'").

Definition interval_hours (frequency : value) : Z :=
  if eqv frequency (VStr "hourly") then 1
  else if eqv frequency (VStr "2_hours") then 2
  else if eqv frequency (VStr "daily") then 24
  else 2.

Definition _generate_posting_schedule (strategy : dict) (current_time : time)
  : list time :=
  let frequency := get_default strategy "posting_frequency" (VStr "2_hours") in
  let interval := interval_hours frequency * hour in
  map (fun i => current_time + interval * Z.of_nat i)
    (seq 0 (Z.to_nat (24 / interval_hours frequency))).

Definition new_agent (idol : string) (idol_meta : dict) (cfg : option dict)
  (w : W) : (exn + agent) * W :=
  let (created, w1) := E.(utcnow) w in
  match cfg with
  | None => (inl (no_attribute VNone "get"), w1)
  | Some c =>
      match get_default c "content_strategy"
              (VDict (default_content_strategy idol_meta)) with
      | VDict strategy =>
          let (current_time, w2) := E.(utcnow) w1 in
          (inr {| agent_id := "idol-" ++ idol;
                  config := c;
                  is_active := false;
                  created_at := created;
                  last_activity := None;
                  tasks_queue := [];
                  execution_history := [];
                  idol_id := idol;
                  idol_metadata := idol_meta;
                  content_strategy := strategy;
                  posting_schedule :=
                    _generate_posting_schedule strategy current_time;
                  licensed_ips := [];
                  created_derivatives := [] |}, w2)
      | other => (inl (no_attribute other "get"), w1)
      end
  end.

(** *** [BaseAgent.start], without the launch of the loop, which is a step
    of the transition system below *)
Definition start : M unit :=
  update (set_is_active true) ;;;
  t <- now ;;
  update (set_last_activity (Some t)).

(** *** [BaseAgent.stop] *)
Definition stop : M unit := update (set_is_active false).

(** *** [BaseAgent.add_task]

    The queue is unbounded, so [put] neither waits nor fails.  The debug
    message is an f-string: [task['type']] is evaluated whatever the
    logging level. *)
Definition add_task (t : task) : M unit :=
  update (fun a => set_tasks_queue (a.(tasks_queue) ++ [t]) a) ;;;
  _ <- lift (subscript t "type") ;;
  ret tt.

(** *** [BaseAgent.get_metrics] *)
Record metrics : Type := {
  metrics_agent_id : string;
  metrics_is_active : bool;
  metrics_created_at : string;
  metrics_last_activity : option string;
  tasks_in_queue : nat;
  tasks_executed : nat;
  (** [total_seconds()] of a difference in microseconds, before rounding
      to a float *)
  uptime_seconds : Q
}.

Definition total_seconds (microseconds : Z) : Q := (microseconds # 1000000)%Q.

Definition get_metrics : M metrics :=
  a <- attr (fun a => a) ;;
  t <- now ;;
  ret {| metrics_agent_id := a.(agent_id);
         metrics_is_active := a.(is_active);
         metrics_created_at := E.(isoformat) a.(created_at);
         metrics_last_activity := option_map E.(isoformat) a.(last_activity);
         tasks_in_queue := List.length a.(tasks_queue);
         tasks_executed := List.length a.(execution_history);
         uptime_seconds := total_seconds (t - a.(created_at)) |}.

(** *** [BaseAgent._task_execution_loop]

    [record_execution] is the body of the [try] once the queue has handed
    over a task; [after_get] adds the handler of [Exception], which logs. *)
Definition history_limit : nat := 100.

Definition record_execution (t : task) : M unit :=
  result <- execute_task t ;;
  stamp <- now ;;
  update (set_last_activity (Some stamp)) ;;;
  update (fun a =>
            set_execution_history
              (a.(execution_history)
                 ++ [{| h_task := t; h_result := result;
                        h_timestamp := stamp |}]) a) ;;;
  history <- attr execution_history ;;
  if (history_limit <? List.length history)%nat
  then update (set_execution_history (last_n history_limit history))
  else ret tt.

Definition after_get (t : task) : M unit :=
  try_except (record_execution t) (fun _ => ret tt).

(** Where a running loop stands between two suspension points. *)
Inductive position : Type :=
| LoopTest                (* about to evaluate [while self.is_active] *)
| Waiting                 (* inside [wait_for(self.tasks_queue.get(), 60.0)] *)
| Running (t : task)      (* inside [await self.execute_task(task)] *)
| Finished.               (* the [while] has ended *)

(** An agent with the loops that [start] has launched, and the tasks the
    queue has handed over so far, oldest first. *)
Record system : Type := {
  agent_state : state;
  loops : list position;
  dequeued : list task
}.

(** What can happen next: a call from another coroutine, one loop moving to
    its next suspension point, the timer of a waiting loop running out, or
    the world moving on its own.  The execution of a task is one step,
    taken when the task completes: the awaits inside a handler touch
    neither the flag nor the queue nor the history, so the calls of other
    coroutines are placed before or after it.  The timer may run out at any
    moment of a wait, which allows more runs than the 60 seconds do. *)
Inductive event : Type :=
| CallStart
| CallStop
| CallAddTask (t : task)
| CallClaimRoyalties
| Resume (i : nat)
| TimerFires (i : nat)
| WorldMoves (f : W -> W).

Fixpoint set_nth {A : Type} (i : nat) (x : A) (l : list A) : list A :=
  match l, i with
  | [], _ => []
  | _ :: l', O => x :: l'
  | y :: l', S i' => y :: set_nth i' x l'
  end.

Definition with_state (s : system) (st : state) : system :=
  {| agent_state := st; loops := s.(loops); dequeued := s.(dequeued) |}.

Definition move (i : nat) (p : position) (s : system) : system :=
  {| agent_state := s.(agent_state);
     loops := set_nth i p s.(loops);
     dequeued := s.(dequeued) |}.

Definition resume (i : nat) (s : system) : system :=
  let st := s.(agent_state) in
  match nth_error s.(loops) i with
  | Some LoopTest =>
      if st.(self).(is_active) then move i Waiting s else move i Finished s
  | Some Waiting =>
      match st.(self).(tasks_queue) with
      | [] => s
      | t :: rest =>
          {| agent_state := snd (update (set_tasks_queue rest) st);
             loops := set_nth i (Running t) s.(loops);
             dequeued := s.(dequeued) ++ [t] |}
      end
  | Some (Running t) => move i LoopTest (with_state s (snd (after_get t st)))
  | Some Finished | None => s
  end.

Definition step (ev : event) (s : system) : system :=
  let st := s.(agent_state) in
  match ev with
  | CallStart =>
      {| agent_state := snd (start st);
         loops := s.(loops) ++ [LoopTest];
         dequeued := s.(dequeued) |}
  | CallStop => with_state s (snd (stop st))
  | CallAddTask t => with_state s (snd (add_task t st))
  | CallClaimRoyalties => with_state s (snd (claim_accumulated_royalties st))
  | Resume i => resume i s
  | TimerFires i =>
      match nth_error s.(loops) i with
      | Some Waiting => move i LoopTest s
      | _ => s
      end
  | WorldMoves f =>
      with_state s
        {| self := st.(self); world := f st.(world); calls := st.(calls) |}
  end.

Definition run (evs : list event) (s : system) : system :=
  fold_left (fun s ev => step ev s) evs s.

(** An agent just constructed: no loop yet. *)
Definition boot (a : agent) (w : W) : system :=
  {| agent_state := {| self := a; world := w; calls := [] |};
     loops := [];
     dequeued := [] |}.

(** One full iteration of loop [i] on a queue that is not empty. *)
Definition iteration (i : nat) : list event := [Resume i; Resume i; Resume i].

(** Draining [n] tasks with the only loop. *)
Definition drain (n : nat) : list event := List.concat (repeat (iteration 0) n).


(** ** The rest of [IdolAgent] *)

(** *** [IdolAgent._get_next_post_time] *)
Definition _get_next_post_time : M (option string) :=
  current_time <- now ;;
  schedule <- attr posting_schedule ;;
  match filter (fun t => current_time <? t) schedule with
  | [] => ret None
  | t :: _ => ret (Some (E.(isoformat) t))
  end.

(** *** [IdolAgent.get_status] *)
Record status : Type := {
  status_agent_id : string;
  status_idol_id : string;
  status_is_active : bool;
  status_last_activity : option string;
  content_created : nat;
  licenses_held : nat;
  next_post_time : option string;
  status_metrics : metrics
}.

Definition get_status : M status :=
  a <- attr (fun a => a) ;;
  next <- _get_next_post_time ;;
  m <- get_metrics ;;
  ret {| status_agent_id := a.(agent_id);
         status_idol_id := a.(idol_id);
         status_is_active := a.(is_active);
         status_last_activity := option_map E.(isoformat) a.(last_activity);
         content_created := List.length a.(created_derivatives);
         licenses_held := List.length a.(licensed_ips);
         next_post_time := next;
         status_metrics := m |}.

(** *** [IdolAgent.analyze_market_opportunities] *)
Definition analyze_market_opportunities : M (list dict) := ret [].

(** ** [ContentGenerator.create_content]

    The dispatch on the content type; the generators themselves are
    requests to services. *)
Definition ContentGenerator_create_content (G : Generators W) (params : dict)
  : W -> (exn + dict) * W :=
  let content_type := get_default params "content_type" (VStr "image") in
  if eqv content_type (VStr "image") then G.(_generate_image) params
  else if eqv content_type (VStr "text") then G.(_generate_text) params
  else if eqv content_type (VStr "video") then G.(_generate_video) params
  else
    fun w =>
      (inl (ValueError ("Unsupported content type: " ++ str content_type)), w).

(** The environment in which the content generator of the agent is a
    [ContentGenerator] over the generators [G]. *)
Definition with_content_generator (G : Generators W) : Env W := {|
  mint_license_tokens := E.(mint_license_tokens);
  create_derivative_content := E.(create_derivative_content);
  claim_royalties := E.(claim_royalties);
  apply_style := E.(apply_style);
  upload_json := E.(upload_json);
  create_content := ContentGenerator_create_content G;
  utcnow := E.(utcnow);
  randbelow := E.(randbelow);
  repr := E.(repr);
  isoformat := E.(isoformat)
|}.

(** ** Helpers of the analytics route ([api/routes.py]) *)

(** What a dict accepts as a key. *)
Definition hashable (v : value) : bool :=
  match v with
  | VList _ | VDict _ => false
  | _ => true
  end.

Definition unhashable (v : value) : exn :=
  TypeError ("unhashable type: '" ++ type_name v ++ "'").

(** [counts[k] = counts.get(k, 0) + 1] on a dict whose keys are values, in
    insertion order: a key already there keeps its place. *)
Fixpoint count_up (k : value) (counts : list (value * Z))
  : list (value * Z) :=
  match counts with
  | [] => [(k, 1)]
  | (k', n) :: rest =>
      if eqv k' k then (k', n + 1) :: rest else (k', n) :: count_up k rest
  end.

(** *** [_count_content_by_type]

    Every record of [created_derivatives] has a [content_type]. *)
Fixpoint count_content (derivatives : list derivative_record)
  (counts : list (value * Z)) : exn + list (value * Z) :=
  match derivatives with
  | [] => inr counts
  | deriv :: rest =>
      let content_type := deriv.(der_content_type) in
      if hashable content_type
      then count_content rest (count_up content_type counts)
      else inl (unhashable content_type)
  end.

Definition _count_content_by_type (derivatives : list derivative_record)
  : exn + list (value * Z) :=
  count_content derivatives [].

(** [max(l, key=...)] once the first element is in hand: the first of the
    greatest. *)
Fixpoint latest_of (best : derivative_record) (l : list derivative_record)
  : derivative_record :=
  match l with
  | [] => best
  | x :: rest =>
      if best.(der_created_at) <? x.(der_created_at)
      then latest_of x rest else latest_of best rest
  end.

(** *** [_get_last_content_time]

    Every record of [created_derivatives] has a [created_at]. *)
Definition _get_last_content_time (derivatives : list derivative_record)
  : option string :=
  match derivatives with
  | [] => None
  | first :: rest =>
      Some (E.(isoformat) (latest_of first rest).(der_created_at))
  end.

(** ** The royalty sweep ([services/scheduler.py]) *)

(** [n += v] for an int [n]. *)
Definition int_add (n : Z) (v : value) : exn + Z :=
  match v with
  | VInt m => inr (n + m)
  | VBool b => inr (n + bool_int b)
  | _ =>
      inl (TypeError
             ("unsupported operand type(s) for +=: 'int' and '"
                ++ type_name v ++ "'"))
  end.

(** The counters of the sweep, the world and the requests sent. *)
Record sweep : Type := {
  total_claimed : Z;
  agents_processed : Z;
  sweep_world : W;
  sweep_calls : list call
}.

(** The body of the [for] of [royalty_collection] for one agent;
    [asyncio.run] runs the claim to its end. *)
Definition collect_one (a : agent) (sw : sweep) : sweep :=
  if negb a.(is_active)
     || match a.(created_derivatives) with [] => true | _ => false end
  then sw
  else
    let (outcome, st) :=
      claim_accumulated_royalties
        {| self := a; world := sw.(sweep_world); calls := sw.(sweep_calls) |} in
    match outcome with
    | inr result =>
        if negb (eqv (get result "status") (VStr "no_derivatives"))
        then
          match int_add sw.(total_claimed)
                  (get_default result "claimed" (VInt 0)) with
          | inr total =>
              {| total_claimed := total;
                 agents_processed := sw.(agents_processed) + 1;
                 sweep_world := st.(world); sweep_calls := st.(calls) |}
          | inl _ =>
              {| total_claimed := sw.(total_claimed);
                 agents_processed := sw.(agents_processed);
                 sweep_world := st.(world); sweep_calls := st.(calls) |}
          end
        else
          {| total_claimed := sw.(total_claimed);
             agents_processed := sw.(agents_processed);
             sweep_world := st.(world); sweep_calls := st.(calls) |}
    | inl _ =>
        {| total_claimed := sw.(total_claimed);
           agents_processed := sw.(agents_processed);
           sweep_world := st.(world); sweep_calls := st.(calls) |}
    end.

(** *** [royalty_collection]

    The registry is a dict from agent ids to agents, in insertion order;
    the sweep goes over its values. *)
Definition royalty_collection (agent_registry : list (string * agent))
  (w : W) : dict * sweep :=
  let sw :=
    fold_left (fun sw a => collect_one a sw) (map snd agent_registry)
      {| total_claimed := 0; agents_processed := 0; sweep_world := w;
         sweep_calls := [] |} in
  ([("status", VStr "completed");
    ("agents_processed", VInt sw.(agents_processed));
    ("total_claimed", VInt sw.(total_claimed))], sw).

(** ** Vocabulary of the statements *)

(** The fields of [BaseAgent] that the loop and its callers rely on. *)
Definition same_base (s s' : state) : Prop :=
  s'.(self).(is_active) = s.(self).(is_active)
  /\ s'.(self).(tasks_queue) = s.(self).(tasks_queue)
  /\ s'.(self).(execution_history) = s.(self).(execution_history)
  /\ s'.(self).(last_activity) = s.(self).(last_activity)
  /\ s'.(self).(idol_id) = s.(self).(idol_id).

(** A method body respects a relation [R] between the state before and the
    state after. *)
Definition respects (R : state -> state -> Prop) {A : Type} (m : M A) : Prop :=
  forall s, R s (snd (m s)).

(** Projections of a system. *)
Definition history (s : system) : list history_entry :=
  s.(agent_state).(self).(execution_history).

Definition queue (s : system) : list task :=
  s.(agent_state).(self).(tasks_queue).

Definition active (s : system) : bool :=
  s.(agent_state).(self).(is_active).

Definition is_waiting (p : position) : bool :=
  match p with Waiting => true | _ => false end.

(** The loops that are inside their wait on the queue. *)
Definition waiting (ls : list position) : nat :=
  List.length (filter is_waiting ls).

(** The tasks that a sequence of events passes to [add_task], in order. *)
Definition added (evs : list event) : list task :=
  flat_map (fun ev => match ev with CallAddTask t => [t] | _ => [] end) evs.

(** What a position counts for among the waiting loops. *)
Definition bump (p : position) : nat := if is_waiting p then 1%nat else 0%nat.

(** A step that executes nothing: no request is sent and the ledgers stay
    as they are. *)
Definition quiet (s s' : system) : Prop :=
  s'.(agent_state).(calls) = s.(agent_state).(calls)
  /\ s'.(agent_state).(self).(licensed_ips)
     = s.(agent_state).(self).(licensed_ips)
  /\ s'.(agent_state).(self).(created_derivatives)
     = s.(agent_state).(self).(created_derivatives).

(** The [content_metadata] of the registration of a remix. *)
Definition remix_metadata (child : value) (ipfs_hash : string) : dict :=
  [("child_ip_id", child);
   ("metadata_uri", VStr ("ipfs://" ++ ipfs_hash));
   ("nft_metadata_uri", VStr ("ipfs://" ++ ipfs_hash))].

(** The requests sent between two states of one execution. *)
Definition new_calls (s s' : state) : list call :=
  skipn (List.length s.(calls)) s'.(calls).

(** The task types that [execute_task] knows. *)
Definition known_types : list value :=
  [VStr "generate_content"; VStr "license_ip"; VStr "create_remix";
   VStr "claim_royalties"].

Definition is_running (p : position) : bool :=
  match p with Running _ => true | _ => false end.

(** The loops that have a task in hand. *)
Definition running (ls : list position) : nat :=
  List.length (filter is_running ls).

(** The calls of [start] in a sequence of events. *)
Definition starts (evs : list event) : nat :=
  List.length
    (filter (fun ev => match ev with CallStart => true | _ => false end) evs).

(** The ledgers of the second state extend those of the first. *)
Definition ledgers_grow (s s' : state) : Prop :=
  (exists l, s'.(self).(licensed_ips) = (s.(self).(licensed_ips) ++ l)%list)
  /\ (exists d,
         s'.(self).(created_derivatives)
         = (s.(self).(created_derivatives) ++ d)%list)
  /\ s'.(self).(posting_schedule) = s.(self).(posting_schedule)
  /\ s'.(self).(content_strategy) = s.(self).(content_strategy)
  /\ s'.(self).(idol_metadata) = s.(self).(idol_metadata).

(** A result record says how the task went. *)
Definition has_status (result : dict) : Prop :=
  lookup "status" result = Some (VStr "success")
  \/ lookup "status" result = Some (VStr "error").

(** The agents that the royalty sweep does not skip. *)
Definition collects (a : agent) : bool :=
  a.(is_active)
  && match a.(created_derivatives) with [] => false | _ => true end.

Definition royalty_request (a : agent) : call :=
  ClaimRoyalties (VStr a.(idol_id)) (map der_ip_id a.(created_derivatives)).

(** The sum of the counts of a dict of counts. *)
Definition total_count (counts : list (value * Z)) : Z :=
  fold_right (fun kn acc => snd kn + acc) 0 counts.

(** The count that a dict of counts holds for a key, 0 without the key. *)
Fixpoint count_of (k : value) (counts : list (value * Z)) : Z :=
  match counts with
  | [] => 0
  | (k', n) :: rest => if eqv k' k then n else count_of k rest
  end.

(** What a position counts for among the loops with a task in hand. *)
Definition in_hand (p : position) : nat :=
  if is_running p then 1%nat else 0%nat.

(** The books of the loop are in order: every task handed over is in the
    hand of a loop or has left its entry in the history, of which the
    last 100 are kept. *)
Definition accounted (s : system) : Prop :=
  (running s.(loops) <= List.length s.(dequeued))%nat
  /\ List.length (history s)
     = Nat.min history_limit
         (List.length s.(dequeued) - running s.(loops)).

(** The parameters that [generate_content] sends to the content generator
    for a content type. *)
Definition content_params_of (a : agent) (content_type : value) : dict :=
  [("idol_name", get a.(idol_metadata) "name");
   ("personality", get a.(idol_metadata) "personality");
   ("style", get a.(idol_metadata) "style");
   ("content_type", content_type)].

(** ** Facts about values *)

Lemma value_induction (P : value -> Prop)
  (HNone : P VNone) (HBool : forall b, P (VBool b))
  (HInt : forall n, P (VInt n)) (HStr : forall s, P (VStr s))
  (HList : forall l, Forall P l -> P (VList l))
  (HDict : forall d, Forall (fun kv => P (snd kv)) d -> P (VDict d))
  : forall v, P v.
Proof.
  exact (fix go (v : value) : P v :=
    match v with
    | VNone => HNone
    | VBool b => HBool b
    | VInt n => HInt n
    | VStr s => HStr s
    | VList l =>
        HList l
          ((fix all (l : list value) : Forall P l :=
              match l with
              | [] => Forall_nil P
              | x :: l' => Forall_cons x (go x) (all l')
              end) l)
    | VDict d =>
        HDict d
          ((fix all (d : list (string * value))
              : Forall (fun kv => P (snd kv)) d :=
              match d with
              | [] => Forall_nil _
              | kv :: d' => Forall_cons kv (go (snd kv)) (all d')
              end) d)
    end).
Qed.

Lemma eqv_refl : forall v, eqv v v = true.
Proof.
  induction v using value_induction; simpl.
  - reflexivity.
  - apply Bool.eqb_reflx.
  - apply Z.eqb_refl.
  - apply String.eqb_refl.
  - induction H as [|x l Hx _ IH]; [reflexivity|].
    now rewrite Hx, IH.
  - rewrite Forall_forall in H.
    apply andb_true_iff; split; apply forallb_forall.
    + intros [k v] Hin. apply existsb_exists. exists (k, v). split; [exact Hin|].
      simpl. rewrite String.eqb_refl. exact (H (k, v) Hin).
    + intros [k v] Hin. apply existsb_exists. exists (k, v). split; [exact Hin|].
      simpl. rewrite String.eqb_refl. exact (H (k, v) Hin).
Qed.

Lemma eqv_str : forall v s, eqv v (VStr s) = true <-> v = VStr s.
Proof.
  intros v s; split.
  - destruct v; simpl; try discriminate.
    intros H. apply String.eqb_eq in H. now subst.
  - intros ->. apply eqv_refl.
Qed.

Lemma eqv_str_false : forall v s, v <> VStr s -> eqv v (VStr s) = false.
Proof.
  intros v s H. destruct (eqv v (VStr s)) eqn:Heq; [|reflexivity].
  apply eqv_str in Heq. contradiction.
Qed.

Lemma last_n_short : forall (A : Type) n (l : list A),
  (List.length l <= n)%nat -> last_n n l = l.
Proof.
  intros A n l H. unfold last_n.
  replace (List.length l - n)%nat with 0%nat by lia. reflexivity.
Qed.

Lemma last_n_length : forall (A : Type) n (l : list A),
  List.length (last_n n l) = Nat.min n (List.length l).
Proof. intros A n l. unfold last_n. rewrite length_skipn. lia. Qed.

Lemma last_n_map : forall (A B : Type) (f : A -> B) n (l : list A),
  map f (last_n n l) = last_n n (map f l).
Proof.
  intros A B f n l. unfold last_n. rewrite length_map. apply eq_sym, skipn_map.
Qed.


(** ** What the methods of [IdolAgent] leave alone

    A relation between the state before and the state after that every
    primitive respects is respected by every method built from them. *)

Section Preservation.

Variable R : state -> state -> Prop.
Hypothesis R_refl : forall s, R s s.
Hypothesis R_trans : forall s1 s2 s3, R s1 s2 -> R s2 s3 -> R s1 s3.
Hypothesis R_world : forall s w,
  R s {| self := s.(self); world := w; calls := s.(calls) |}.
Hypothesis R_request : forall s w c,
  R s {| self := s.(self); world := w; calls := s.(calls) ++ [c] |}.
Hypothesis R_licensed : forall s l,
  R s {| self := set_licensed_ips l s.(self); world := s.(world);
         calls := s.(calls) |}.
Hypothesis R_derivatives : forall s l,
  R s {| self := set_created_derivatives l s.(self); world := s.(world);
         calls := s.(calls) |}.


Lemma preserves_ret : forall (A : Type) (x : A), respects R (ret x).
Proof. intros A x s. apply R_refl. Qed.

Lemma preserves_raise : forall (A : Type) e, respects R (@raise A e).
Proof. intros A e s. apply R_refl. Qed.

Lemma preserves_lift : forall (A : Type) (r : exn + A), respects R (lift r).
Proof. intros A r s. apply R_refl. Qed.

Lemma preserves_attr : forall (A : Type) (f : agent -> A), respects R (attr f).
Proof. intros A f s. apply R_refl. Qed.

Lemma preserves_bind : forall (A B : Type) (m : M A) (k : A -> M B),
  respects R m -> (forall x, respects R (k x)) -> respects R (bind m k).
Proof.
  intros A B m k Hm Hk s. unfold bind.
  specialize (Hm s). destruct (m s) as [[e|x] s1]; simpl in *.
  - exact Hm.
  - eapply R_trans; [exact Hm | apply Hk].
Qed.

Lemma preserves_try : forall (A : Type) (m : M A) (h : exn -> M A),
  respects R m -> (forall e, respects R (h e)) -> respects R (try_except m h).
Proof.
  intros A m h Hm Hh s. unfold try_except.
  specialize (Hm s). destruct (m s) as [[e|x] s1]; simpl in *.
  - eapply R_trans; [exact Hm | apply Hh].
  - exact Hm.
Qed.

Lemma preserves_request : forall (A : Type) c (f : W -> (exn + A) * W),
  respects R (request c f).
Proof.
  intros A c f s. unfold request. destruct (f s.(world)); apply R_request.
Qed.

Lemma preserves_observe : forall (A : Type) (f : W -> A * W),
  respects R (observe f).
Proof.
  intros A f s. unfold observe. destruct (f s.(world)); apply R_world.
Qed.

Lemma preserves_append_license : forall f,
  respects R (update (fun a => set_licensed_ips (f a) a)).
Proof. intros f s. apply R_licensed. Qed.

Lemma preserves_append_derivative : forall f,
  respects R (update (fun a => set_created_derivatives (f a) a)).
Proof. intros f s. apply R_derivatives. Qed.

Ltac preserve :=
  repeat first
    [ apply preserves_bind; [|intros ?]
    | apply preserves_ret | apply preserves_raise | apply preserves_lift
    | apply preserves_attr | apply preserves_request
    | apply preserves_observe | apply preserves_append_license
    | apply preserves_append_derivative
    | match goal with |- respects R (if ?b then _ else _) => destruct b end
    | match goal with |- respects R (match ?x with _ => _ end) => destruct x end ].

Lemma preserves_generate_content : forall ct, respects R (generate_content ct).
Proof.
  intros ct. unfold generate_content, now. preserve.
Qed.

Lemma preserves_license_external_ip : forall ip,
  respects R (license_external_ip ip).
Proof. intros ip. unfold license_external_ip, now. preserve. Qed.

Lemma preserves_create_remix : forall ip, respects R (create_remix ip).
Proof.
  intros ip. unfold create_remix, now.
  apply preserves_bind; [preserve|intros licensed].
  apply preserves_bind.
  - destruct (find_license ip licensed); [preserve|].
    apply preserves_bind; [apply preserves_license_external_ip|intros ?].
    preserve.
  - intros tok. preserve.
Qed.

Lemma preserves_claim : respects R claim_accumulated_royalties.
Proof. unfold claim_accumulated_royalties. preserve. Qed.

Lemma preserves_dispatch : forall t, respects R (dispatch t).
Proof.
  intros t. unfold dispatch, _generate_content_task, _license_ip_task,
    _create_remix_task, _claim_royalties_task.
  repeat match goal with
         | |- respects R (if ?b then _ else _) => destruct b
         end;
    try apply preserves_raise;
    (apply preserves_bind; [|intros ?; apply preserves_ret]).
  - apply preserves_generate_content.
  - apply preserves_license_external_ip.
  - apply preserves_create_remix.
  - apply preserves_claim.
Qed.

Lemma preserves_execute_task : forall t, respects R (execute_task t).
Proof.
  intros t. apply preserves_try; [apply preserves_dispatch|].
  intros e. apply preserves_ret.
Qed.

End Preservation.


Lemma execute_task_same_base : forall t s, same_base s (snd (execute_task t s)).
Proof.
  intros t. apply preserves_execute_task; unfold same_base; simpl;
    try tauto.
  intros s1 s2 s3 H1 H2.
  destruct H1 as (A1 & A2 & A3 & A4 & A5), H2 as (B1 & B2 & B3 & B4 & B5).
  repeat split; congruence.
Qed.

Lemma claim_same_base : forall s,
  same_base s (snd (claim_accumulated_royalties s)).
Proof.
  apply preserves_claim; unfold same_base; simpl; try tauto.
  intros s1 s2 s3 H1 H2.
  destruct H1 as (A1 & A2 & A3 & A4 & A5), H2 as (B1 & B2 & B3 & B4 & B5).
  repeat split; congruence.
Qed.

(** [execute_task] never raises: its handler turns every exception of the
    [try] body into a result. *)
Lemma execute_task_total : forall t s,
  exists r, fst (execute_task t s) = inr r.
Proof.
  intros t s. unfold execute_task, try_except.
  destruct (dispatch t s) as [[e|x] s']; simpl; eauto.
Qed.

Lemma execute_task_of_dispatch : forall t s e s',
  dispatch t s = (inl e, s') ->
  execute_task t s = (inr (error_result e), s').
Proof.
  intros t s e s' H. unfold execute_task, try_except. now rewrite H.
Qed.

(** One pass through the body of the [try] after the queue has answered:
    the history gains the entry of the task and keeps its last 100
    entries; the flag and the queue are as before. *)
Lemma after_get_spec : forall t st,
  exists result st1 stamp,
    execute_task t st = (inr result, st1)
    /\ stamp = fst (E.(utcnow) st1.(world))
    /\ (snd (after_get t st)).(self).(is_active) = st.(self).(is_active)
    /\ (snd (after_get t st)).(self).(tasks_queue) = st.(self).(tasks_queue)
    /\ (snd (after_get t st)).(self).(execution_history)
       = last_n history_limit
           (st.(self).(execution_history)
              ++ [{| h_task := t; h_result := result;
                     h_timestamp := stamp |}]).
Proof.
  intros t st.
  destruct (execute_task_total t st) as [result Hres].
  pose proof (execute_task_same_base t st) as (F1 & F2 & F3 & _ & _).
  destruct (execute_task t st) as [r st1] eqn:Hexec. simpl in *. subst r.
  exists result, st1, (fst (E.(utcnow) st1.(world))).
  split; [reflexivity|]. split; [reflexivity|].
  unfold after_get, record_execution, try_except, bind, now, observe, update,
    attr, ret.
  rewrite Hexec.
  destruct (E.(utcnow) st1.(world)) as [stamp w1]. simpl.
  match goal with
  | |- context [if ?b then _ else _] => destruct b eqn:Hlen
  end; simpl; rewrite F1, F2, F3; repeat split.
  apply Nat.ltb_ge in Hlen. rewrite F3 in Hlen.
  symmetry. apply last_n_short. exact Hlen.
Qed.

(** ** The transition system *)


Lemma run_app : forall evs evs' s, run (evs ++ evs') s = run evs' (run evs s).
Proof. intros. apply fold_left_app. Qed.

Lemma run_cons : forall ev evs s, run (ev :: evs) s = run evs (step ev s).
Proof. reflexivity. Qed.

Lemma nth_error_set_nth : forall (A : Type) i (x : A) l y,
  nth_error l i = Some y -> nth_error (set_nth i x l) i = Some x.
Proof.
  intros A i x l. revert i.
  induction l as [|z l IH]; intros [|i] y H; simpl in *;
    try discriminate; eauto.
Qed.


(** The history after a step: only a loop that completes a task changes
    it. *)
Lemma step_history : forall ev s,
  history (step ev s) = history s
  \/ exists i t result stamp,
       ev = Resume i
       /\ nth_error s.(loops) i = Some (Running t)
       /\ history (step ev s)
          = last_n history_limit
              (history s ++ [{| h_task := t; h_result := result;
                                h_timestamp := stamp |}]).
Proof.
  intros ev s. destruct ev; simpl; try (left; reflexivity).
  - left. unfold history. simpl.
    unfold start, bind, update, now, observe. simpl.
    destruct (E.(utcnow) _); reflexivity.
  - left. unfold history. simpl.
    unfold add_task, bind, update, lift. simpl.
    destruct (subscript t "type"); reflexivity.
  - left. unfold history. simpl.
    now destruct (claim_same_base s.(agent_state)) as (_ & _ & H & _).
  - unfold resume.
    destruct (nth_error s.(loops) i) as [[| |t|]|] eqn:Hpos;
      try (left; reflexivity).
    + left. now destruct (is_active _).
    + left. now destruct (tasks_queue _).
    + right.
      destruct (after_get_spec t s.(agent_state))
        as (result & st1 & stamp & _ & _ & _ & _ & H).
      exists i, t, result, stamp.
      split; [reflexivity|]. split; [exact Hpos|]. exact H.
  - left. now destruct (nth_error s.(loops) i) as [[| | |]|].
Qed.

Lemma step_history_bounded : forall ev s,
  (List.length (history s) <= history_limit)%nat ->
  (List.length (history (step ev s)) <= history_limit)%nat.
Proof.
  intros ev s H.
  destruct (step_history ev s) as [Heq|(i & t & r & stamp & _ & _ & Heq)];
    rewrite Heq; [exact H|].
  rewrite last_n_length. lia.
Qed.

Lemma run_history_bounded : forall evs s,
  (List.length (history s) <= history_limit)%nat ->
  (List.length (history (run evs s)) <= history_limit)%nat.
Proof.
  induction evs as [|ev evs IH]; intros s H; [exact H|].
  rewrite run_cons. apply IH, step_history_bounded, H.
Qed.

(** What [__init__] leaves behind. *)
Lemma new_agent_fresh : forall idol meta cfg w a w',
  new_agent idol meta cfg w = (inr a, w') ->
  a.(is_active) = false /\ a.(tasks_queue) = []
  /\ a.(execution_history) = [] /\ a.(last_activity) = None
  /\ a.(licensed_ips) = [] /\ a.(created_derivatives) = []
  /\ a.(agent_id) = "idol-" ++ idol /\ a.(idol_id) = idol.
Proof.
  intros idol meta cfg w a w' H. unfold new_agent in H.
  destruct (E.(utcnow) w) as [created w1].
  destruct cfg as [c|]; [|discriminate].
  destruct (get_default c "content_strategy" _); try discriminate.
  destruct (E.(utcnow) w1) as [current w2].
  injection H as <- _. simpl. repeat split.
Qed.

Lemma step_add_task : forall t s,
  queue (step (CallAddTask t) s) = (queue s ++ [t])%list
  /\ history (step (CallAddTask t) s) = history s
  /\ active (step (CallAddTask t) s) = active s
  /\ (step (CallAddTask t) s).(loops) = s.(loops)
  /\ (step (CallAddTask t) s).(dequeued) = s.(dequeued).
Proof.
  intros t s. unfold queue, history, active. simpl.
  unfold add_task, bind, update, lift. simpl.
  destruct (subscript t "type"); simpl; repeat split.
Qed.

Lemma run_add_tasks : forall ts s,
  queue (run (map CallAddTask ts) s) = (queue s ++ ts)%list
  /\ history (run (map CallAddTask ts) s) = history s
  /\ active (run (map CallAddTask ts) s) = active s
  /\ (run (map CallAddTask ts) s).(loops) = s.(loops)
  /\ (run (map CallAddTask ts) s).(dequeued) = s.(dequeued).
Proof.
  induction ts as [|t ts IH]; intros s.
  - simpl. rewrite app_nil_r. repeat split.
  - cbn [map]. rewrite run_cons.
    destruct (IH (step (CallAddTask t) s)) as (A1 & A2 & A3 & A4 & A5).
    destruct (step_add_task t s) as (B1 & B2 & B3 & B4 & B5).
    rewrite A1, A2, A3, A4, A5, B1, B2, B3, B4, B5, <- app_assoc.
    repeat split.
Qed.

Lemma step_start : forall s,
  queue (step CallStart s) = queue s
  /\ history (step CallStart s) = history s
  /\ active (step CallStart s) = true
  /\ (step CallStart s).(loops) = (s.(loops) ++ [LoopTest])%list
  /\ (step CallStart s).(dequeued) = s.(dequeued).
Proof.
  intros s. unfold queue, history, active. simpl.
  unfold start, bind, update, now, observe. simpl.
  destruct (E.(utcnow) _); simpl; repeat split.
Qed.

Lemma last_n_app_ge : forall (A : Type) n (l m : list A),
  (n <= List.length m)%nat -> last_n n (l ++ m) = last_n n m.
Proof.
  intros A n l m H. unfold last_n. rewrite length_app, skipn_app.
  rewrite skipn_all2 by lia. simpl. f_equal. lia.
Qed.

Lemma last_n_app_last_n : forall (A : Type) n (l m : list A),
  last_n n (last_n n l ++ m) = last_n n (l ++ m).
Proof.
  intros A n l m.
  destruct (Nat.le_gt_cases (List.length l) n) as [Hle|Hgt].
  - now rewrite (last_n_short l Hle).
  - rewrite <- (firstn_skipn (List.length l - n) l) at 2.
    rewrite <- app_assoc. symmetry. apply last_n_app_ge.
    unfold last_n. rewrite length_app, length_skipn. lia.
Qed.

(** One iteration of the only loop on a queue that is not empty. *)
Lemma iteration_spec : forall s t rest,
  s.(loops) = [LoopTest] -> active s = true -> queue s = t :: rest ->
  let s' := run (iteration 0) s in
  s'.(loops) = [LoopTest] /\ active s' = true /\ queue s' = rest
  /\ s'.(dequeued) = (s.(dequeued) ++ [t])%list
  /\ map h_task (history s')
     = last_n history_limit (map h_task (history s) ++ [t]).
Proof.
  intros [st ls dq] t rest Hl Ha Hq.
  unfold active, queue, history in *. simpl in Hl, Ha, Hq. subst ls.
  assert (H1 : step (Resume 0)
                 {| agent_state := st; loops := [LoopTest]; dequeued := dq |}
               = {| agent_state := st; loops := [Waiting]; dequeued := dq |}).
  { cbn [step]. unfold resume. cbn. now rewrite Ha. }
  assert (H2 : step (Resume 0)
                 {| agent_state := st; loops := [Waiting]; dequeued := dq |}
               = {| agent_state := snd (update (set_tasks_queue rest) st);
                    loops := [Running t];
                    dequeued := (dq ++ [t])%list |}).
  { cbn [step]. unfold resume. cbn. now rewrite Hq. }
  unfold iteration. rewrite !run_cons, H1, H2. cbn [run fold_left step].
  unfold resume. cbn.
  match goal with
  | |- context [after_get t ?st] =>
      destruct (after_get_spec t st)
        as (result & st1 & stamp & _ & _ & A1 & A2 & A3)
  end.
  cbn in A1, A2, A3. rewrite A1, A2, A3, Ha.
  repeat split.
  etransitivity; [apply (last_n_map h_task history_limit (_ ++ [_]))|].
  now rewrite map_app.
Qed.

(** Draining: every task at the head of the queue is handed over once, in
    queue order, and the history keeps the last 100 of them. *)
Lemma drain_spec : forall ts s rest,
  s.(loops) = [LoopTest] -> active s = true ->
  queue s = (ts ++ rest)%list ->
  (List.length (history s) <= history_limit)%nat ->
  let s' := run (drain (List.length ts)) s in
  s'.(loops) = [LoopTest] /\ active s' = true /\ queue s' = rest
  /\ s'.(dequeued) = (s.(dequeued) ++ ts)%list
  /\ map h_task (history s')
     = last_n history_limit (map h_task (history s) ++ ts).
Proof.
  induction ts as [|t ts IH]; intros s rest Hl Ha Hq Hh.
  - simpl. rewrite !app_nil_r. repeat split; try assumption.
    symmetry. apply last_n_short. now rewrite length_map.
  - cbn [List.length drain repeat List.concat].
    change (List.concat (repeat (iteration 0) (List.length ts)))
      with (drain (List.length ts)).
    rewrite run_app.
    destruct (iteration_spec s Hl Ha Hq) as (A1 & A2 & A3 & A4 & A5).
    destruct (IH (run (iteration 0) s) rest A1 A2 A3
                (run_history_bounded (iteration 0) s Hh))
      as (B1 & B2 & B3 & B4 & B5).
    cbv zeta. rewrite B4, B5, A4, A5, last_n_app_last_n.
    repeat split; try assumption; now rewrite <- app_assoc.
Qed.

(** A loop that has a task in hand completes it: the result of
    [execute_task] goes to the history, and the loop is back at its test. *)
Lemma resume_running : forall s i t,
  nth_error s.(loops) i = Some (Running t) ->
  exists result st1,
    execute_task t s.(agent_state) = (inr result, st1)
    /\ history (step (Resume i) s)
       = last_n history_limit
           (history s
              ++ [{| h_task := t; h_result := result;
                     h_timestamp := fst (E.(utcnow) st1.(world)) |}])
    /\ nth_error (step (Resume i) s).(loops) i = Some LoopTest
    /\ active (step (Resume i) s) = active s
    /\ queue (step (Resume i) s) = queue s
    /\ (step (Resume i) s).(dequeued) = s.(dequeued).
Proof.
  intros s i t Hpos. cbn [step]. unfold resume. rewrite Hpos.
  destruct (after_get_spec t s.(agent_state))
    as (result & st1 & stamp & Hx & -> & A1 & A2 & A3).
  exists result, st1. unfold history, active, queue. simpl.
  repeat split; try assumption.
  eapply nth_error_set_nth, Hpos.
Qed.

(** Tasks enqueued before [start], then drained by the loop. *)
Lemma enqueue_then_drain : forall a w ts,
  a.(is_active) = false -> a.(tasks_queue) = [] ->
  a.(execution_history) = [] ->
  let s :=
    run (map CallAddTask ts ++ CallStart :: drain (List.length ts))
      (boot a w) in
  s.(dequeued) = ts /\ queue s = [] /\ s.(loops) = [LoopTest]
  /\ map h_task (history s) = last_n history_limit ts.
Proof.
  intros a w ts Ha Hq Hh. cbv zeta. rewrite run_app, run_cons.
  assert (Q0 : queue (boot a w) = []) by exact Hq.
  assert (H0 : history (boot a w) = []) by exact Hh.
  assert (L0 : (boot a w).(loops) = []) by reflexivity.
  assert (D0 : (boot a w).(dequeued) = []) by reflexivity.
  destruct (run_add_tasks ts (boot a w)) as (A1 & A2 & A3 & A4 & A5).
  destruct (step_start (run (map CallAddTask ts) (boot a w)))
    as (B1 & B2 & B3 & B4 & B5).
  rewrite A1, Q0 in B1. rewrite A2, H0 in B2.
  rewrite A4, L0 in B4. rewrite A5, D0 in B5.
  destruct (drain_spec ts (step CallStart (run (map CallAddTask ts) (boot a w)))
              []) as (C1 & C2 & C3 & C4 & C5).
  - exact B4.
  - exact B3.
  - rewrite B1. now rewrite app_nil_r.
  - rewrite B2. simpl. unfold history_limit. lia.
  - rewrite B5 in C4. rewrite B2 in C5.
    repeat split; assumption.
Qed.

(** What one pass through the body of the [try] leaves behind is what the
    one execution of the task leaves, the clock read once more and the
    entry added to the history. *)
Lemma after_get_effects : forall t st,
  exists result st1,
    execute_task t st = (inr result, st1)
    /\ (snd (after_get t st)).(calls) = st1.(calls)
    /\ (snd (after_get t st)).(world) = snd (E.(utcnow) st1.(world))
    /\ (snd (after_get t st)).(self).(licensed_ips)
       = st1.(self).(licensed_ips)
    /\ (snd (after_get t st)).(self).(created_derivatives)
       = st1.(self).(created_derivatives)
    /\ (snd (after_get t st)).(self).(execution_history)
       = last_n history_limit
           (st.(self).(execution_history)
              ++ [{| h_task := t; h_result := result;
                     h_timestamp := fst (E.(utcnow) st1.(world)) |}]).
Proof.
  intros t st.
  destruct (after_get_spec t st)
    as (result & st1 & stamp & Hexec & -> & _ & _ & Hhist).
  exists result, st1. split; [exact Hexec|].
  split; [|split; [|split; [|split; [|exact Hhist]]]].
  all: unfold after_get, record_execution, try_except, bind, now, observe,
         update, attr, ret.
  all: rewrite Hexec.
  all: destruct (E.(utcnow) st1.(world)) as [stamp w1]; simpl.
  all: match goal with
       | |- context [if ?b then _ else _] => destruct b
       end; reflexivity.
Qed.

Lemma drain_succ : forall k, drain (S k) = (drain k ++ iteration 0)%list.
Proof.
  intros k. unfold drain.
  change (repeat (iteration 0) (S k))
    with (iteration 0 :: repeat (iteration 0) k).
  rewrite repeat_cons, concat_app. reflexivity.
Qed.

Lemma skipn_nth_error : forall (A : Type) (l : list A) k x,
  nth_error l k = Some x -> skipn k l = x :: skipn (S k) l.
Proof.
  induction l as [|y l IH]; intros [|k] x H; simpl in *; try discriminate.
  - now injection H as ->.
  - now apply IH.
Qed.

Lemma firstn_nth_error : forall (A : Type) (l : list A) k x,
  nth_error l k = Some x -> firstn (S k) l = (firstn k l ++ [x])%list.
Proof.
  induction l as [|y l IH]; intros [|k] x H; simpl in *; try discriminate.
  - now injection H as ->.
  - f_equal. now apply IH.
Qed.

(** The tasks enqueued before [start], once the loop has gone through the
    first [k] of them: it is back at its test, with the others in the
    queue. *)
Lemma enqueue_then_drain_some : forall a w ts k,
  a.(is_active) = false -> a.(tasks_queue) = [] ->
  a.(execution_history) = [] ->
  (k <= List.length ts)%nat ->
  let s := run (map CallAddTask ts ++ CallStart :: drain k) (boot a w) in
  s.(loops) = [LoopTest] /\ active s = true /\ queue s = skipn k ts
  /\ s.(dequeued) = firstn k ts.
Proof.
  intros a w ts k Ha Hq Hh Hk. cbv zeta. rewrite run_app, run_cons.
  assert (Q0 : queue (boot a w) = []) by exact Hq.
  assert (H0 : history (boot a w) = []) by exact Hh.
  assert (L0 : (boot a w).(loops) = []) by reflexivity.
  assert (D0 : (boot a w).(dequeued) = []) by reflexivity.
  destruct (run_add_tasks ts (boot a w)) as (A1 & A2 & A3 & A4 & A5).
  destruct (step_start (run (map CallAddTask ts) (boot a w)))
    as (B1 & B2 & B3 & B4 & B5).
  rewrite A1, Q0 in B1. rewrite A2, H0 in B2.
  rewrite A4, L0 in B4. rewrite A5, D0 in B5.
  destruct (drain_spec (firstn k ts)
              (step CallStart (run (map CallAddTask ts) (boot a w)))
              (skipn k ts)) as (C1 & C2 & C3 & C4 & _).
  - exact B4.
  - exact B3.
  - rewrite B1. simpl. now rewrite firstn_skipn.
  - rewrite B2. simpl. unfold history_limit. lia.
  - rewrite firstn_length_le in C1, C2, C3, C4 by exact Hk.
    rewrite B5 in C4. repeat split; assumption.
Qed.

(** Enqueueing and starting execute nothing. *)
Lemma step_add_task_quiet : forall t s, quiet s (step (CallAddTask t) s).
Proof.
  intros t s. unfold quiet. simpl.
  unfold add_task, bind, update, lift. simpl.
  destruct (subscript t "type"); simpl; repeat split.
Qed.

Lemma run_add_tasks_quiet : forall ts s, quiet s (run (map CallAddTask ts) s).
Proof.
  induction ts as [|t ts IH]; intros s.
  - simpl. repeat split.
  - cbn [map]. rewrite run_cons.
    destruct (IH (step (CallAddTask t) s)) as (A1 & A2 & A3).
    destruct (step_add_task_quiet t s) as (B1 & B2 & B3).
    unfold quiet. rewrite A1, A2, A3, B1, B2, B3. repeat split.
Qed.

Lemma step_start_quiet : forall s, quiet s (step CallStart s).
Proof.
  intros s. unfold quiet. simpl.
  unfold start, bind, update, now, observe. simpl.
  destruct (E.(utcnow) _); simpl; repeat split.
Qed.

(** One iteration of the only loop, seen from the task: the loop takes the
    head of the queue, and what the iteration leaves is what one
    execution of that task leaves. *)
Lemma iteration_executes : forall s t rest,
  s.(loops) = [LoopTest] -> active s = true -> queue s = t :: rest ->
  let holding := run [Resume 0; Resume 0] s in
  let s' := run (iteration 0) s in
  holding.(loops) = [Running t]
  /\ holding.(dequeued) = (s.(dequeued) ++ [t])%list
  /\ holding.(agent_state)
     = snd (update (set_tasks_queue rest) s.(agent_state))
  /\ exists result st1,
       execute_task t holding.(agent_state) = (inr result, st1)
       /\ s'.(agent_state).(calls) = st1.(calls)
       /\ s'.(agent_state).(world) = snd (E.(utcnow) st1.(world))
       /\ s'.(agent_state).(self).(licensed_ips) = st1.(self).(licensed_ips)
       /\ s'.(agent_state).(self).(created_derivatives)
          = st1.(self).(created_derivatives)
       /\ history s'
          = last_n history_limit
              (history s
                 ++ [{| h_task := t; h_result := result;
                        h_timestamp := fst (E.(utcnow) st1.(world)) |}]).
Proof.
  intros [st ls dq] t rest Hl Ha Hq.
  unfold active, queue, history in *. simpl in Hl, Ha, Hq. subst ls.
  assert (H1 : step (Resume 0)
                 {| agent_state := st; loops := [LoopTest]; dequeued := dq |}
               = {| agent_state := st; loops := [Waiting]; dequeued := dq |}).
  { cbn [step]. unfold resume. cbn. now rewrite Ha. }
  assert (H2 : step (Resume 0)
                 {| agent_state := st; loops := [Waiting]; dequeued := dq |}
               = {| agent_state := snd (update (set_tasks_queue rest) st);
                    loops := [Running t];
                    dequeued := (dq ++ [t])%list |}).
  { cbn [step]. unfold resume. cbn. now rewrite Hq. }
  unfold iteration. cbv zeta. rewrite !run_cons, H1, H2.
  cbn [run fold_left agent_state loops dequeued].
  repeat (split; [reflexivity|]).
  destruct (after_get_effects t (snd (update (set_tasks_queue rest) st)))
    as (result & st1 & Hexec & E1 & E2 & E3 & E4 & E5).
  exists result, st1. split; [exact Hexec|].
  cbn [step]. unfold resume. cbn [nth_error loops agent_state move with_state].
  repeat split; assumption.
Qed.

(** ** The claims *)

(** C1.  From its construction on, whatever the calls and the
    interleaving, the execution history of an agent holds at most 100
    entries; a task completed on a full history drops the oldest entry and
    adds its own at the end; and after 101 tasks have been executed the
    history holds the entries of the second to the last of them, in
    order. *)
Theorem history_never_exceeds_limit :
  forall idol meta cfg w a w',
    new_agent idol meta cfg w = (inr a, w') ->
    (forall evs,
        (List.length (history (run evs (boot a w'))) <= 100)%nat)
    /\ (forall evs i t oldest others,
           let s := run evs (boot a w') in
           nth_error s.(loops) i = Some (Running t) ->
           history s = oldest :: others ->
           List.length others = 99%nat ->
           exists result stamp,
             history (step (Resume i) s)
             = (others ++ [{| h_task := t; h_result := result;
                              h_timestamp := stamp |}])%list)
    /\ (forall first rest,
           List.length rest = 100%nat ->
           map h_task
             (history
                (run (map CallAddTask (first :: rest)
                        ++ CallStart :: drain 101) (boot a w')))
           = rest).
Proof.
  intros idol meta cfg w a w' Hnew.
  destruct (new_agent_fresh _ _ _ _ Hnew) as (Ha & Hq & Hh & _).
  split; [|split].
  - intros evs. apply run_history_bounded.
    unfold history. simpl. rewrite Hh. simpl. unfold history_limit. lia.
  - intros evs i t oldest others s Hpos Hhist Hlen.
    destruct (resume_running s i Hpos) as (result & st1 & _ & H & _).
    exists result, (fst (E.(utcnow) st1.(world))).
    rewrite H, Hhist. unfold last_n, history_limit.
    rewrite length_app. simpl. rewrite Hlen. reflexivity.
  - intros first rest Hlen.
    pose proof (enqueue_then_drain a w' (first :: rest) Ha Hq Hh) as H.
    cbv zeta in H. cbn [List.length] in H. rewrite Hlen in H.
    destruct H as (_ & _ & _ & H). rewrite H.
    unfold last_n, history_limit. cbn [List.length]. rewrite Hlen.
    reflexivity.
Qed.

(** C8, as amended.  Tasks enqueued with [add_task] before the agent is
    started are handed over by the queue once each, in the order of their
    enqueueing, and leave the queue empty; each one executed leaves one
    history entry, of which the history holds the last 100 in order: as
    many entries as tasks when there are at most 100 of them.  And each
    one is executed, once and in its turn: nothing has been sent or
    recorded when the loop starts, and when the loop has gone through
    the first [k] tasks it takes the next one off the queue, changing
    nothing else, and what its next iteration leaves is what one call of
    [execute_task] on that task leaves from there, its requests sent,
    its licenses and derivatives on record, its result in the entry
    added to the history, with one more reading of the clock. *)
Theorem drained_tasks_run_once_in_order :
  forall idol meta cfg w a w' ts,
    new_agent idol meta cfg w = (inr a, w') ->
    let after k :=
      run (map CallAddTask ts ++ CallStart :: drain k) (boot a w') in
    let s := after (List.length ts) in
    s.(dequeued) = ts
    /\ queue s = []
    /\ map h_task (history s) = last_n 100 ts
    /\ List.length (history s) = Nat.min 100 (List.length ts)
    /\ ((List.length ts <= 100)%nat -> map h_task (history s) = ts)
    /\ (after 0%nat).(agent_state).(calls) = []
    /\ (after 0%nat).(agent_state).(self).(licensed_ips) = []
    /\ (after 0%nat).(agent_state).(self).(created_derivatives) = []
    /\ forall k t,
         nth_error ts k = Some t ->
         let holding := run [Resume 0; Resume 0] (after k) in
         holding.(loops) = [Running t]
         /\ holding.(dequeued) = firstn (S k) ts
         /\ holding.(agent_state)
            = snd (update (set_tasks_queue (skipn (S k) ts))
                     (after k).(agent_state))
         /\ exists result st1,
              execute_task t holding.(agent_state) = (inr result, st1)
              /\ (after (S k)).(agent_state).(calls) = st1.(calls)
              /\ (after (S k)).(agent_state).(world)
                 = snd (E.(utcnow) st1.(world))
              /\ (after (S k)).(agent_state).(self).(licensed_ips)
                 = st1.(self).(licensed_ips)
              /\ (after (S k)).(agent_state).(self).(created_derivatives)
                 = st1.(self).(created_derivatives)
              /\ history (after (S k))
                 = last_n 100
                     (history (after k)
                        ++ [{| h_task := t; h_result := result;
                               h_timestamp :=
                                 fst (E.(utcnow) st1.(world)) |}]).
Proof.
  intros idol meta cfg w a w' ts Hnew.
  destruct (new_agent_fresh _ _ _ _ Hnew)
    as (Ha & Hq & Hh & _ & Hlic & Hder & _).
  destruct (enqueue_then_drain a w' ts Ha Hq Hh) as (A1 & A2 & _ & A3).
  cbv beta zeta.
  split; [exact A1|]. split; [exact A2|]. split; [exact A3|].
  split; [|split; [|split; [|split; [|split]]]].
  - rewrite <- (length_map h_task), A3. apply last_n_length.
  - intros Hle. rewrite A3. apply last_n_short. exact Hle.
  - rewrite run_app.
    destruct (step_start_quiet (run (map CallAddTask ts) (boot a w')))
      as (Q1 & _).
    destruct (run_add_tasks_quiet ts (boot a w')) as (Q2 & _).
    cbn [drain repeat List.concat run fold_left]. now rewrite Q1, Q2.
  - rewrite run_app.
    destruct (step_start_quiet (run (map CallAddTask ts) (boot a w')))
      as (_ & Q1 & _).
    destruct (run_add_tasks_quiet ts (boot a w')) as (_ & Q2 & _).
    cbn [drain repeat List.concat run fold_left]. now rewrite Q1, Q2.
  - rewrite run_app.
    destruct (step_start_quiet (run (map CallAddTask ts) (boot a w')))
      as (_ & _ & Q1).
    destruct (run_add_tasks_quiet ts (boot a w')) as (_ & _ & Q2).
    cbn [drain repeat List.concat run fold_left]. now rewrite Q1, Q2.
  - intros k t Hk.
    assert (Hlt : (k <= List.length ts)%nat).
    { apply Nat.lt_le_incl, nth_error_Some. congruence. }
    destruct (enqueue_then_drain_some a w' ts Ha Hq Hh Hlt)
      as (B1 & B2 & B3 & B4).
    rewrite (skipn_nth_error ts k Hk) in B3.
    destruct (iteration_executes _ B1 B2 B3) as (C1 & C2 & C3 & C4).
    rewrite B4, <- (firstn_nth_error ts k Hk) in C2.
    replace (run (map CallAddTask ts ++ CallStart :: drain (S k)) (boot a w'))
      with (run (iteration 0)
              (run (map CallAddTask ts ++ CallStart :: drain k) (boot a w'))).
    + repeat (split; [assumption|]). exact C4.
    + rewrite <- run_app, <- app_assoc, <- app_comm_cons, drain_succ.
      reflexivity.
Qed.


Lemma get_metrics_run : forall st,
  get_metrics st
  = (inr {| metrics_agent_id := st.(self).(agent_id);
            metrics_is_active := st.(self).(is_active);
            metrics_created_at := E.(isoformat) st.(self).(created_at);
            metrics_last_activity :=
              option_map E.(isoformat) st.(self).(last_activity);
            tasks_in_queue := List.length st.(self).(tasks_queue);
            tasks_executed := List.length st.(self).(execution_history);
            uptime_seconds :=
              total_seconds
                (fst (E.(utcnow) st.(world)) - st.(self).(created_at)) |},
     {| self := st.(self); world := snd (E.(utcnow) st.(world));
        calls := st.(calls) |}).
Proof.
  intros st. unfold get_metrics, bind, attr, now, observe, ret. simpl.
  destruct (E.(utcnow) st.(world)); reflexivity.
Qed.


Lemma waiting_set_nth : forall ls i p q,
  nth_error ls i = Some p ->
  (waiting (set_nth i q ls) + bump p = waiting ls + bump q)%nat.
Proof.
  unfold waiting, bump.
  induction ls as [|x ls IH]; intros [|i] p q H; simpl in *;
    try discriminate.
  - injection H as ->. destruct (is_waiting p), (is_waiting q); simpl; lia.
  - specialize (IH i p q H). destruct (is_waiting x); simpl; lia.
Qed.

(** With the flag down and no new [start], a step either hands over the
    task at the head of the queue to a loop that was waiting, or leaves the
    queue alone but for the task it may add at the end. *)
Lemma step_inactive : forall ev s,
  active s = false -> ev <> CallStart ->
  active (step ev s) = false
  /\ ((queue (step ev s) = (queue s ++ added [ev])%list
       /\ (step ev s).(dequeued) = s.(dequeued)
       /\ (waiting (step ev s).(loops) <= waiting s.(loops))%nat)
      \/ (exists t,
             queue s = t :: queue (step ev s)
             /\ (step ev s).(dequeued) = (s.(dequeued) ++ [t])%list
             /\ S (waiting (step ev s).(loops)) = waiting s.(loops)
             /\ added [ev] = [])).
Proof.
  intros ev s Ha Hev. destruct ev; try congruence.
  - (* stop *)
    split; [reflexivity|]. left. unfold queue. simpl.
    rewrite app_nil_r. repeat split. lia.
  - (* add_task *)
    destruct (step_add_task t s) as (B1 & _ & B3 & B4 & B5).
    split; [congruence|]. left. rewrite B1, B4, B5. simpl. repeat split. lia.
  - (* claim_accumulated_royalties from outside the loop *)
    destruct (claim_same_base s.(agent_state)) as (F1 & F2 & _).
    unfold active, queue in *. simpl.
    split; [congruence|]. left. rewrite F2, app_nil_r. repeat split. lia.
  - (* a loop moves *)
    cbn [step]. unfold resume.
    destruct (nth_error s.(loops) i) as [[| |t|]|] eqn:Hpos.
    + unfold active in Ha. rewrite Ha. split; [exact Ha|]. left.
      unfold queue. simpl. rewrite app_nil_r. repeat split.
      pose proof (waiting_set_nth s.(loops) i Finished Hpos) as H.
      unfold bump in H. simpl in H. lia.
    + destruct s.(agent_state).(self).(tasks_queue) as [|t rest] eqn:Hq.
      * split; [exact Ha|]. left. unfold queue. rewrite Hq. simpl.
        repeat split. lia.
      * split; [exact Ha|]. right. exists t. unfold queue. rewrite Hq. simpl.
        repeat split.
        pose proof (waiting_set_nth s.(loops) i (Running t) Hpos) as H.
        unfold bump in H. simpl in H. lia.
    + destruct (after_get_spec t s.(agent_state))
        as (result & st1 & stamp & _ & _ & A1 & A2 & _).
      unfold active, queue in *. simpl.
      split; [congruence|]. left. rewrite A2, app_nil_r. repeat split.
      pose proof (waiting_set_nth s.(loops) i LoopTest Hpos) as H.
      unfold bump in H. simpl in H. lia.
    + split; [exact Ha|]. left. simpl. rewrite app_nil_r. repeat split. lia.
    + split; [exact Ha|]. left. simpl. rewrite app_nil_r. repeat split. lia.
  - (* a timer *)
    cbn [step].
    destruct (nth_error s.(loops) i) as [[| |t|]|] eqn:Hpos;
      (split; [exact Ha|]); left; unfold queue; simpl; rewrite app_nil_r;
      repeat split; try lia.
    pose proof (waiting_set_nth s.(loops) i LoopTest Hpos) as H.
    unfold bump in H. simpl in H. lia.
  - (* the world *)
    split; [exact Ha|]. left. unfold queue. simpl. rewrite app_nil_r.
    repeat split. lia.
Qed.

Lemma added_cons : forall ev evs,
  added (ev :: evs) = (added [ev] ++ added evs)%list.
Proof. intros ev evs. unfold added. simpl. now rewrite app_nil_r. Qed.

Lemma run_inactive : forall evs s,
  active s = false -> Forall (fun ev => ev <> CallStart) evs ->
  exists k,
    (k <= waiting s.(loops))%nat
    /\ (run evs s).(dequeued)
       = (s.(dequeued) ++ firstn k (queue s ++ added evs))%list
    /\ queue (run evs s) = skipn k (queue s ++ added evs)
    /\ active (run evs s) = false.
Proof.
  induction evs as [|ev evs IH]; intros s Ha Hevs.
  - exists 0%nat. simpl. rewrite !app_nil_r. repeat split; [lia|exact Ha].
  - inversion Hevs as [|? ? Hev Hrest]; subst.
    destruct (step_inactive s Ha Hev)
      as (Ha1 & [(Q & D & Wt)|(t & Q & D & Wt & Ad)]).
    + destruct (IH (step ev s) Ha1 Hrest) as (k & Hk & Hd & Hq & Hact).
      exists k. rewrite run_cons, Hd, Hq, D, Q, <- app_assoc.
      rewrite (added_cons ev evs).
      repeat split; [lia|exact Hact].
    + destruct (IH (step ev s) Ha1 Hrest) as (k & Hk & Hd & Hq & Hact).
      exists (S k). rewrite run_cons, Hd, Hq, D, Q, <- app_assoc.
      rewrite (added_cons ev evs), Ad. simpl.
      repeat split; [lia|exact Hact].
Qed.

(** C2, as amended.  Once [stop] has been called and [start] is not called
    again, the loops dequeue at most as many further tasks as there were
    loops inside their wait on the queue when [stop] was called: none when
    the loop was executing a task, at its test or already finished, at most
    one for the single loop of an agent started once.  The tasks dequeued
    are the oldest ones; all the others, among them those enqueued after
    the [stop], stay in the queue in their order, and [tasks_in_queue]
    is their number. *)
Theorem stop_bounds_further_dequeues :
  forall s evs,
    Forall (fun ev => ev <> CallStart) evs ->
    let stopped := step CallStop s in
    let s' := run evs stopped in
    exists k,
      (k <= waiting s.(loops))%nat
      /\ s'.(dequeued)
         = (stopped.(dequeued) ++ firstn k (queue stopped ++ added evs))%list
      /\ queue s' = skipn k (queue stopped ++ added evs)
      /\ exists m st',
           get_metrics s'.(agent_state) = (inr m, st')
           /\ m.(tasks_in_queue)
              = (List.length (queue stopped ++ added evs) - k)%nat.
Proof.
  intros s evs Hevs stopped s'.
  assert (Ha : active stopped = false) by reflexivity.
  destruct (run_inactive stopped Ha Hevs) as (k & Hk & Hd & Hq & _).
  exists k. repeat split; try assumption.
  rewrite get_metrics_run. eexists _, _. split; [reflexivity|].
  cbn [tasks_in_queue]. fold (queue s'). subst s'.
  rewrite Hq, length_skipn. reflexivity.
Qed.




Lemma new_calls_app : forall s s' l,
  s'.(calls) = (s.(calls) ++ l)%list -> new_calls s s' = l.
Proof.
  intros s s' l H. unfold new_calls. rewrite H, skipn_app, skipn_all.
  now rewrite Nat.sub_diag.
Qed.

Ltac unfold_monad H :=
  unfold now in H;
  unfold bind, lift, attr, request, observe, update, ret, raise,
    try_except in H;
  simpl in H.

Ltac split_innermost H :=
  match type of H with
  | context [match ?x with _ => _ end] =>
      lazymatch x with
      | context [match _ with _ => _ end] => fail
      | _ => let Eq := fresh "Eq" in destruct x eqn:Eq; simpl in H
      end
  end.

Ltac finish_run H :=
  injection H as ? ?; subst; simpl in *.

(** C4.  With no derivative on record, [claim_accumulated_royalties]
    returns the record [no_derivatives] with [claimed] 0, leaves the
    state as it is and sends no request, to the blockchain collaborator or
    to any other.  With derivatives on record it
    sends one request, a royalty claim for the idol's IP over the [ip_id]
    of every derivative on record in order, and ends as that request
    does. *)
Theorem claim_royalties_short_circuits :
  forall st,
    (st.(self).(created_derivatives) = [] ->
     claim_accumulated_royalties st
     = (inr [("status", VStr "no_derivatives"); ("claimed", VInt 0)], st)
     /\ new_calls st (snd (claim_accumulated_royalties st)) = [])
    /\ (st.(self).(created_derivatives) <> [] ->
        let children := map der_ip_id st.(self).(created_derivatives) in
        let answer :=
          E.(claim_royalties) (VStr st.(self).(idol_id)) children
            st.(world) in
        fst (claim_accumulated_royalties st) = fst answer
        /\ (snd (claim_accumulated_royalties st)).(self) = st.(self)
        /\ (snd (claim_accumulated_royalties st)).(world) = snd answer
        /\ (snd (claim_accumulated_royalties st)).(calls)
           = (st.(calls)
                ++ [ClaimRoyalties (VStr st.(self).(idol_id)) children])%list).
Proof.
  intros st. unfold claim_accumulated_royalties, bind, attr, ret, request.
  simpl. split; intros H.
  - rewrite H. split; [reflexivity|]. unfold new_calls. simpl.
    apply skipn_all.
  - destruct st.(self).(created_derivatives) as [|d ds] eqn:Hd;
      [contradiction|].
    cbv zeta. rewrite <- Hd.
    destruct (E.(claim_royalties) _ _ _) as [r w]. repeat split.
Qed.

Ltac calls_from_start :=
  repeat rewrite <- app_assoc; simpl;
  match goal with
  | |- context [new_calls ?s ?s'] =>
      rewrite (@new_calls_app s s' _ ltac:(simpl; repeat rewrite <- app_assoc;
                                           simpl; reflexivity))
  end.

Ltac calls_from_start_in Hyp :=
  match type of Hyp with
  | context [new_calls ?s ?s'] =>
      rewrite (@new_calls_app s s' _ ltac:(simpl; repeat rewrite <- app_assoc;
                                           simpl; reflexivity)) in Hyp
  end.

(** The lookup of [create_remix] finds nothing exactly when no entry has
    the style IP, and otherwise the first entry that has it. *)
Lemma find_license_none : forall style l,
  (forall lic, In lic l -> eqv lic.(lic_ip_id) style = false) ->
  find_license style l = None.
Proof.
  intros style l H. unfold find_license.
  induction l as [|x l IH]; [reflexivity|]. simpl.
  rewrite (H x (or_introl eq_refl)). apply IH.
  intros lic Hin. apply H. now right.
Qed.

Lemma find_license_first : forall style before existing after,
  (forall lic, In lic before -> eqv lic.(lic_ip_id) style = false) ->
  eqv existing.(lic_ip_id) style = true ->
  find_license style (before ++ existing :: after) = Some existing.
Proof.
  intros style before existing after H He. unfold find_license.
  induction before as [|x l IH]; simpl.
  - now rewrite He.
  - rewrite (H x (or_introl eq_refl)). apply IH.
    intros lic Hin. apply H. now right.
Qed.

Lemma create_remix_requests_by_lookup :
  forall style st,
    let st' := snd (create_remix style st) in
    match find_license style st.(self).(licensed_ips) with
    | None =>
        exists rest,
          new_calls st st'
          = MintLicenseTokens style 1 (VStr st.(self).(idol_id)) :: rest
          /\ filter is_mint rest = []
          /\ forall parent meta toks,
               In (CreateDerivativeContent parent meta toks) rest ->
               exists minted w tokens tok,
                 E.(mint_license_tokens) style 1 (VStr st.(self).(idol_id))
                   st.(world) = (inr minted, w)
                 /\ lookup "license_token_ids" minted = Some tokens
                 /\ item0 tokens = inr tok
                 /\ toks = Some [tok]
    | Some existing =>
        filter is_mint (new_calls st st') = []
        /\ forall parent meta toks,
             In (CreateDerivativeContent parent meta toks) (new_calls st st') ->
             exists tok,
               item0 existing.(lic_license_tokens) = inr tok
               /\ toks = Some [tok]
    end.
Proof.
  intros style st st'. subst st'.
  destruct (create_remix style st) as [r st'] eqn:H. simpl.
  unfold create_remix, license_external_ip, subscript in H. unfold_monad H.
  destruct (find_license style st.(self).(licensed_ips)) as [existing|].
  - repeat split_innermost H; finish_run H.
    all: try (rewrite (@new_calls_app _ _ [] ltac:(simpl; now rewrite app_nil_r));
              split; [reflexivity|intros ? ? ? []]).
    all: calls_from_start; (split; [reflexivity|]).
    all: intros parent meta toks Hin; simpl in Hin.
    all: repeat (destruct Hin as [Hin|Hin]; try discriminate);
      try contradiction.
    all: injection Hin as <- <- <-; eexists; split; reflexivity.
  - repeat split_innermost H; finish_run H.
    all: calls_from_start; eexists; (split; [reflexivity|]);
      (split; [reflexivity|]).
    all: intros parent meta toks Hin; simpl in Hin.
    all: repeat (destruct Hin as [Hin|Hin]; try discriminate);
      try contradiction.
    all: injection Hin as <- <- <-; do 4 eexists;
      repeat split; try reflexivity; eassumption.
Qed.

(** What [create_remix] sends once it holds a license token and the
    style mixer and IPFS answer. *)
Lemma create_remix_registers_unlicensed :
  forall style st minted w1 tokens tok remix w2 data child ipfs_hash w3,
    let idol := VStr st.(self).(idol_id) in
    find_license style st.(self).(licensed_ips) = None ->
    E.(mint_license_tokens) style 1 idol st.(world) = (inr minted, w1) ->
    lookup "license_token_ids" minted = Some tokens ->
    item0 tokens = inr tok ->
    E.(apply_style) idol style remix_parameters (snd (E.(utcnow) w1))
    = (inr remix, w2) ->
    lookup "metadata" remix = Some data ->
    E.(upload_json) data w2 = (inr ipfs_hash, w3) ->
    lookup "ip_id" remix = Some child ->
    new_calls st (snd (create_remix style st))
    = [MintLicenseTokens style 1 idol;
       ApplyStyle idol style remix_parameters;
       UploadJson data;
       CreateDerivativeContent idol (remix_metadata child ipfs_hash)
         (Some [tok])].
Proof.
  intros style st minted w1 tokens tok remix w2 data child ipfs_hash w3 idol
    Hfind Hmint Htokens Htok Hstyle Hdata Hupload Hchild.
  subst idol.
  destruct (create_remix style st) as [r st'] eqn:H. simpl.
  unfold create_remix, license_external_ip, subscript in H. unfold_monad H.
  rewrite Hfind in H. simpl in H. rewrite Hmint in H. simpl in H.
  rewrite Htokens in H. simpl in H.
  destruct (E.(utcnow) w1) as [t w1'] eqn:Hnow. simpl in H, Hstyle.
  rewrite Htokens in H. simpl in H.
  rewrite Htok in H. simpl in H. rewrite Hstyle in H. simpl in H.
  rewrite Hdata in H. simpl in H. rewrite Hupload in H. simpl in H.
  rewrite Hchild in H. simpl in H.
  repeat split_innermost H; finish_run H.
  all: calls_from_start; reflexivity.
Qed.

Lemma create_remix_registers_licensed :
  forall style st existing tok remix w2 data child ipfs_hash w3,
    let idol := VStr st.(self).(idol_id) in
    find_license style st.(self).(licensed_ips) = Some existing ->
    item0 existing.(lic_license_tokens) = inr tok ->
    E.(apply_style) idol style remix_parameters st.(world)
    = (inr remix, w2) ->
    lookup "metadata" remix = Some data ->
    E.(upload_json) data w2 = (inr ipfs_hash, w3) ->
    lookup "ip_id" remix = Some child ->
    new_calls st (snd (create_remix style st))
    = [ApplyStyle idol style remix_parameters;
       UploadJson data;
       CreateDerivativeContent idol (remix_metadata child ipfs_hash)
         (Some [tok])].
Proof.
  intros style st existing tok remix w2 data child ipfs_hash w3 idol
    Hfind Htok Hstyle Hdata Hupload Hchild.
  subst idol.
  destruct (create_remix style st) as [r st'] eqn:H. simpl.
  unfold create_remix, license_external_ip, subscript in H. unfold_monad H.
  rewrite Hfind in H. simpl in H. rewrite Htok in H. simpl in H.
  rewrite Hstyle in H. simpl in H.
  rewrite Hdata in H. simpl in H. rewrite Hupload in H. simpl in H.
  rewrite Hchild in H. simpl in H.
  repeat split_innermost H; finish_run H.
  all: calls_from_start; reflexivity.
Qed.

(** C5.  A call of [create_remix] on a style IP that no entry of
    [licensed_ips] has sends the request that mints one license token for
    that IP, addressed to the idol, before any other request, and mints
    no second time; when the mint answers with a list of tokens and the
    style mixer and IPFS answer, its requests are that mint, the style
    application, the upload and the derivative registration, in this
    order, and the registration carries the first minted token and
    nothing else.  A call on a style IP that an entry has mints nothing;
    when the style mixer and IPFS answer, its requests are the style
    application, the upload and the derivative registration, which
    carries the first token of the first entry with that IP, whatever the
    later entries hold.  In both cases a registration is sent with no
    other token, however the collaborators answer. *)
Theorem create_remix_mints_only_without_license :
  forall style st,
    let idol := VStr st.(self).(idol_id) in
    let licensed := st.(self).(licensed_ips) in
    let sent := new_calls st (snd (create_remix style st)) in
    ((forall lic, In lic licensed -> eqv lic.(lic_ip_id) style = false) ->
     (exists rest,
        sent = MintLicenseTokens style 1 idol :: rest
        /\ filter is_mint rest = []
        /\ forall parent meta toks,
             In (CreateDerivativeContent parent meta toks) rest ->
             exists minted w tokens tok,
               E.(mint_license_tokens) style 1 idol st.(world)
               = (inr minted, w)
               /\ lookup "license_token_ids" minted = Some tokens
               /\ item0 tokens = inr tok
               /\ toks = Some [tok])
     /\ forall minted w1 tokens tok remix w2 data child ipfs_hash w3,
          E.(mint_license_tokens) style 1 idol st.(world)
          = (inr minted, w1) ->
          lookup "license_token_ids" minted = Some tokens ->
          item0 tokens = inr tok ->
          E.(apply_style) idol style remix_parameters (snd (E.(utcnow) w1))
          = (inr remix, w2) ->
          lookup "metadata" remix = Some data ->
          E.(upload_json) data w2 = (inr ipfs_hash, w3) ->
          lookup "ip_id" remix = Some child ->
          sent
          = [MintLicenseTokens style 1 idol;
             ApplyStyle idol style remix_parameters;
             UploadJson data;
             CreateDerivativeContent idol (remix_metadata child ipfs_hash)
               (Some [tok])])
    /\ (forall before existing after,
          licensed = (before ++ existing :: after)%list ->
          (forall lic, In lic before -> eqv lic.(lic_ip_id) style = false) ->
          eqv existing.(lic_ip_id) style = true ->
          filter is_mint sent = []
          /\ (forall parent meta toks,
                In (CreateDerivativeContent parent meta toks) sent ->
                exists tok,
                  item0 existing.(lic_license_tokens) = inr tok
                  /\ toks = Some [tok])
          /\ forall tok remix w2 data child ipfs_hash w3,
               item0 existing.(lic_license_tokens) = inr tok ->
               E.(apply_style) idol style remix_parameters st.(world)
               = (inr remix, w2) ->
               lookup "metadata" remix = Some data ->
               E.(upload_json) data w2 = (inr ipfs_hash, w3) ->
               lookup "ip_id" remix = Some child ->
               sent
               = [ApplyStyle idol style remix_parameters;
                  UploadJson data;
                  CreateDerivativeContent idol
                    (remix_metadata child ipfs_hash) (Some [tok])]).
Proof.
  intros style st idol licensed sent. subst idol licensed sent. split.
  - intros Hnone. apply find_license_none in Hnone.
    pose proof (create_remix_requests_by_lookup style st) as H.
    cbv zeta in H. rewrite Hnone in H. split; [exact H|].
    intros. now eapply create_remix_registers_unlicensed; eauto.
  - intros before existing after Hl Hbefore Hexisting.
    pose proof (@find_license_first style before existing after Hbefore
                  Hexisting) as Hfind.
    rewrite <- Hl in Hfind.
    pose proof (create_remix_requests_by_lookup style st) as H.
    cbv zeta in H. rewrite Hfind in H. destruct H as [H1 H2].
    split; [exact H1|]. split; [exact H2|].
    intros. now eapply create_remix_registers_licensed; eauto.
Qed.

Lemma dispatch_unknown : forall t st,
  ~ In (get t "type") known_types ->
  dispatch t st
  = (inl (ValueError ("Unknown task type: " ++ str (get t "type"))), st).
Proof.
  intros t st H. unfold dispatch, known_types in *.
  rewrite !eqv_str_false; [reflexivity| | | |];
    intros Heq; apply H; rewrite Heq; simpl; tauto.
Qed.

(** C7.  [execute_task] never raises.  On a task whose [type] is none of
    the four known ones it returns the record with status ["error"] and
    the message ["Unknown task type: "] followed by the type, and leaves
    the state as it is; a task without a [type] is one of these, and its
    message names the type [None]. *)
Theorem unknown_task_type_is_an_error_result :
  forall t st,
    (exists r, fst (execute_task t st) = inr r)
    /\ (~ In (get t "type") known_types ->
        execute_task t st
        = (inr [("status", VStr "error");
                ("error",
                 VStr ("Unknown task type: " ++ str (get t "type")))], st))
    /\ (lookup "type" t = None ->
        execute_task t st
        = (inr [("status", VStr "error");
                ("error", VStr "Unknown task type: None")], st)).
Proof.
  intros t st. split; [apply execute_task_total|]. split.
  - intros H. erewrite execute_task_of_dispatch by (apply dispatch_unknown, H).
    reflexivity.
  - intros H.
    assert (Hget : get t "type" = VNone) by (unfold get; now rewrite H).
    erewrite execute_task_of_dispatch.
    2:{ apply dispatch_unknown. rewrite Hget. unfold known_types. simpl.
        intros [F|[F|[F|[F|[]]]]]; discriminate. }
    rewrite Hget. reflexivity.
Qed.


(** C6: what the code does where the claim fails.  On a task without a
    [type], [add_task] puts the task in the queue and then raises
    [KeyError('type')], out of the f-string of its debug message. *)
Theorem add_task_raises_without_type :
  forall t st,
    lookup "type" t = None ->
    add_task t st
    = (inl (KeyError (VStr "type")),
       {| self :=
            set_tasks_queue (st.(self).(tasks_queue) ++ [t]) st.(self);
          world := st.(world);
          calls := st.(calls) |}).
Proof.
  intros t st H. unfold add_task, bind, update, lift, subscript. simpl.
  now rewrite H.
Qed.

(** With a [type], whatever it is, [add_task] enqueues and returns. *)
Lemma add_task_with_type : forall t st v,
  lookup "type" t = Some v ->
  add_task t st
  = (inr tt,
     {| self := set_tasks_queue (st.(self).(tasks_queue) ++ [t]) st.(self);
        world := st.(world);
        calls := st.(calls) |}).
Proof.
  intros t st v H. unfold add_task, bind, update, lift, subscript, ret. simpl.
  now rewrite H.
Qed.

Lemma find_license_snoc : forall style l entry more,
  find_license style l = None ->
  entry.(lic_ip_id) = style ->
  find_license style ((l ++ [entry]) ++ more) = Some entry.
Proof.
  intros style l entry more Hnone Hid. unfold find_license in *.
  induction l as [|x l IH]; simpl in *.
  - now rewrite Hid, eqv_refl.
  - destruct (eqv x.(lic_ip_id) style); [discriminate|]. apply IH, Hnone.
Qed.

(** With an entry for the style IP, [create_remix] mints nothing. *)
Lemma create_remix_licensed_no_mint : forall style st existing,
  find_license style st.(self).(licensed_ips) = Some existing ->
  filter is_mint (new_calls st (snd (create_remix style st))) = [].
Proof.
  intros style st existing Hfind.
  destruct (create_remix style st) as [r st'] eqn:H. simpl.
  unfold create_remix, subscript in H. unfold_monad H.
  rewrite Hfind in H.
  repeat split_innermost H; finish_run H.
  all: try (rewrite (@new_calls_app _ _ [] ltac:(simpl; now rewrite app_nil_r));
            reflexivity).
  all: calls_from_start; reflexivity.
Qed.

(** C10.  Let [create_remix] run on a style IP that has no entry in
    [licensed_ips], get as far as the style application, and then raise.
    The entry of the license just minted is at the end of [licensed_ips],
    nothing before it has changed, and [created_derivatives] is as before;
    the [create_remix] task with that style IP gives the error record of
    the exception; and a later [create_remix] on the same style IP, with
    that entry still on record, mints nothing. *)
Theorem failed_remix_keeps_the_license :
  forall style st e st',
    find_license style st.(self).(licensed_ips) = None ->
    create_remix style st = (inl e, st') ->
    existsb is_apply_style (new_calls st st') = true ->
    (exists tokens stamp,
        st'.(self).(licensed_ips)
        = (st.(self).(licensed_ips)
             ++ [{| lic_ip_id := style; lic_license_tokens := tokens;
                    lic_licensed_at := stamp |}])%list)
    /\ st'.(self).(created_derivatives) = st.(self).(created_derivatives)
    /\ (forall t,
           get t "type" = VStr "create_remix" ->
           get t "style_ip_id" = style ->
           execute_task t st
           = (inr [("status", VStr "error"); ("error", VStr (str_exn e))],
              st'))
    /\ (forall later more,
           later.(self).(licensed_ips)
           = (st'.(self).(licensed_ips) ++ more)%list ->
           filter is_mint (new_calls later (snd (create_remix style later)))
           = []).
Proof.
  intros style st e st' Hnone H Happly.
  assert (Hentry :
            (exists tokens stamp,
                st'.(self).(licensed_ips)
                = (st.(self).(licensed_ips)
                     ++ [{| lic_ip_id := style; lic_license_tokens := tokens;
                            lic_licensed_at := stamp |}])%list)
            /\ st'.(self).(created_derivatives)
               = st.(self).(created_derivatives)).
  { pose proof H as H'.
    unfold create_remix, license_external_ip, subscript in H'.
    unfold_monad H'. rewrite Hnone in H'.
    repeat split_innermost H'; finish_run H'.
    all: try (calls_from_start_in Happly; discriminate).
    all: split; [eexists _, _; reflexivity | reflexivity]. }
  destruct Hentry as ((tokens & stamp & Hlic) & Hder).
  split; [now exists tokens, stamp|]. split; [exact Hder|]. split.
  - intros t Hty Hstyle.
    apply execute_task_of_dispatch.
    unfold dispatch. rewrite Hty. simpl.
    unfold _create_remix_task, bind. now rewrite Hstyle, H.
  - intros later more Hlater.
    apply create_remix_licensed_no_mint
      with (existing := {| lic_ip_id := style; lic_license_tokens := tokens;
                           lic_licensed_at := stamp |}).
    rewrite Hlater, Hlic. now apply find_license_snoc.
Qed.

(** ** Further properties: the posting schedule *)

Lemma interval_hours_cases : forall frequency,
  (interval_hours frequency = 1 /\ eqv frequency (VStr "hourly") = true)
  \/ (interval_hours frequency = 24 /\ eqv frequency (VStr "hourly") = false
      /\ eqv frequency (VStr "daily") = true)
  \/ (interval_hours frequency = 2 /\ eqv frequency (VStr "hourly") = false
      /\ eqv frequency (VStr "daily") = false).
Proof.
  intros frequency. unfold interval_hours.
  destruct (eqv frequency (VStr "hourly")) eqn:H1; [left; auto|].
  destruct (eqv frequency (VStr "2_hours")) eqn:H2.
  - right. right. apply eqv_str in H2. subst. auto.
  - destruct (eqv frequency (VStr "daily")); auto.
Qed.

Lemma schedule_sorted : forall t0 c n start,
  0 <= c ->
  StronglySorted Z.le
    (map (fun i => t0 + c * Z.of_nat i) (seq start n)).
Proof.
  intros t0 c n. induction n as [|n IH]; intros start Hc; simpl.
  - constructor.
  - constructor; [apply IH, Hc|].
    apply Forall_forall. intros t Hin.
    apply in_map_iff in Hin. destruct Hin as (i & <- & Hi).
    apply in_seq in Hi. nia.
Qed.

Lemma sorted_filter_head : forall (p : Z -> bool) l t rest,
  StronglySorted Z.le l ->
  filter p l = t :: rest ->
  In t l /\ p t = true
  /\ forall t', In t' l -> p t' = true -> t <= t'.
Proof.
  intros p l t rest Hs. induction Hs as [|x l Hs IH Hx]; simpl; intros Hf.
  - discriminate.
  - destruct (p x) eqn:Hp.
    + injection Hf as -> _. split; [now left|]. split; [exact Hp|].
      intros t' [<-|Hin] _; [lia|].
      rewrite Forall_forall in Hx. now apply Hx.
    + destruct (IH Hf) as (Hin & Hpt & Hmin).
      split; [now right|]. split; [exact Hpt|].
      intros t' [<-|Hin'] Hp'; [congruence|]. now apply Hmin.
Qed.

Lemma filter_nil_all : forall (A : Type) (p : A -> bool) l,
  filter p l = [] -> forall x, In x l -> p x = false.
Proof.
  intros A p l. induction l as [|y l IH]; simpl; intros Hf x Hin.
  - contradiction.
  - destruct (p y) eqn:Hp; [discriminate|].
    destruct Hin as [<-|Hin]; [exact Hp|]. now apply IH.
Qed.

Lemma filter_none : forall (A : Type) (p : A -> bool) l,
  (forall x, In x l -> p x = false) -> filter p l = [].
Proof.
  intros A p l. induction l as [|y l IH]; simpl; intros H; [reflexivity|].
  rewrite (H y) by now left. apply IH. intros x Hin. apply H. now right.
Qed.

Lemma schedule_within_a_day : forall strategy t0 t,
  In t (_generate_posting_schedule strategy t0) ->
  t0 <= t < t0 + 24 * hour.
Proof.
  intros strategy t0 t Hin. unfold _generate_posting_schedule in Hin.
  apply in_map_iff in Hin. destruct Hin as (i & <- & Hi).
  apply in_seq in Hi. unfold hour.
  destruct (interval_hours_cases
              (get_default strategy "posting_frequency" (VStr "2_hours")))
    as [(H & _)|[(H & _)|(H & _)]]; rewrite H in *;
    change (Z.to_nat (24 / 1)) with 24%nat in Hi;
    change (Z.to_nat (24 / 24)) with 1%nat in Hi;
    change (Z.to_nat (24 / 2)) with 12%nat in Hi; lia.
Qed.

(** X1.  Whatever the strategy, the posting schedule has 24 slots for the
    frequency ["hourly"], one for ["daily"] and 12 for every other
    frequency, a missing one included; slot [k] is the starting time plus
    [k] intervals; and every slot lies in the 24 hours that begin at the
    starting time. *)
Theorem posting_schedule_window :
  forall strategy t0,
    let frequency := get_default strategy "posting_frequency" (VStr "2_hours") in
    let schedule := _generate_posting_schedule strategy t0 in
    List.length schedule
    = (if eqv frequency (VStr "hourly") then 24
       else if eqv frequency (VStr "daily") then 1 else 12)%nat
    /\ (forall k,
           (k < List.length schedule)%nat ->
           nth k schedule 0
           = t0 + interval_hours frequency * hour * Z.of_nat k)
    /\ (forall t, In t schedule -> t0 <= t < t0 + 24 * hour).
Proof.
  intros strategy t0 frequency schedule.
  assert (Hlen : List.length schedule
                 = Z.to_nat (24 / interval_hours frequency)).
  { unfold schedule, _generate_posting_schedule. fold frequency.
    now rewrite length_map, length_seq. }
  split; [|split].
  - rewrite Hlen.
    destruct (interval_hours_cases frequency)
      as [(-> & ->)|[(-> & -> & ->)|(-> & -> & ->)]]; reflexivity.
  - intros k Hk. rewrite Hlen in Hk.
    unfold schedule, _generate_posting_schedule. fold frequency.
    set (f := fun i => t0 + interval_hours frequency * hour * Z.of_nat i).
    rewrite (nth_indep _ 0 (f 0%nat))
      by (rewrite length_map, length_seq; exact Hk).
    rewrite map_nth, seq_nth by exact Hk. reflexivity.
  - intros t Hin. exact (schedule_within_a_day _ _ _ Hin).
Qed.

(** ** Further properties: the ledgers *)

Lemma grow_same : forall s s',
  s'.(self).(licensed_ips) = s.(self).(licensed_ips) ->
  s'.(self).(created_derivatives) = s.(self).(created_derivatives) ->
  s'.(self).(posting_schedule) = s.(self).(posting_schedule) ->
  s'.(self).(content_strategy) = s.(self).(content_strategy) ->
  s'.(self).(idol_metadata) = s.(self).(idol_metadata) ->
  ledgers_grow s s'.
Proof.
  intros s s' H1 H2 H3 H4 H5. unfold ledgers_grow.
  split; [exists []; now rewrite app_nil_r|].
  split; [exists []; now rewrite app_nil_r|]. auto.
Qed.

Lemma grow_refl : forall s, ledgers_grow s s.
Proof. intros s. now apply grow_same. Qed.

Lemma grow_trans : forall s1 s2 s3,
  ledgers_grow s1 s2 -> ledgers_grow s2 s3 -> ledgers_grow s1 s3.
Proof.
  intros s1 s2 s3 ((l1 & H1) & (d1 & G1) & P1 & Q1 & M1)
    ((l2 & H2) & (d2 & G2) & P2 & Q2 & M2).
  split; [exists (l1 ++ l2)%list; now rewrite H2, H1, app_assoc|].
  split; [exists (d1 ++ d2)%list; now rewrite G2, G1, app_assoc|].
  repeat split; congruence.
Qed.

Lemma grow_world : forall (s : state) (w : W),
  ledgers_grow s {| self := s.(self); world := w; calls := s.(calls) |}.
Proof. intros s w. now apply grow_same. Qed.

Lemma grow_request : forall (s : state) (w : W) (c : call),
  ledgers_grow s
    {| self := s.(self); world := w; calls := (s.(calls) ++ [c])%list |}.
Proof. intros s w c. now apply grow_same. Qed.

Lemma grow_license : forall x,
  respects ledgers_grow
    (update (fun a => set_licensed_ips (a.(licensed_ips) ++ [x]) a)).
Proof.
  intros x s. unfold ledgers_grow. simpl.
  split; [now exists [x]|]. split; [exists []; now rewrite app_nil_r|].
  auto.
Qed.

Lemma grow_derivative : forall x,
  respects ledgers_grow
    (update
       (fun a => set_created_derivatives (a.(created_derivatives) ++ [x]) a)).
Proof.
  intros x s. unfold ledgers_grow. simpl.
  split; [exists []; now rewrite app_nil_r|]. split; [now exists [x]|].
  auto.
Qed.

Ltac grow :=
  repeat first
    [ apply preserves_bind; [exact grow_trans| |intros ?]
    | apply preserves_ret; exact grow_refl
    | apply preserves_raise; exact grow_refl
    | apply preserves_lift; exact grow_refl
    | apply preserves_attr; exact grow_refl
    | apply preserves_request; exact grow_request
    | apply preserves_observe; exact grow_world
    | apply grow_license | apply grow_derivative
    | match goal with
      | |- respects _ (if ?b then _ else _) => destruct b
      end
    | match goal with
      | |- respects _ (match ?x with _ => _ end) => destruct x
      end ].

Lemma grow_generate_content : forall ct,
  respects ledgers_grow (generate_content ct).
Proof. intros ct. unfold generate_content, now. grow. Qed.

Lemma grow_license_external_ip : forall ip,
  respects ledgers_grow (license_external_ip ip).
Proof. intros ip. unfold license_external_ip, now. grow. Qed.

Ltac grow_bind := apply preserves_bind; [exact grow_trans| |].
Ltac grow_try := apply preserves_try; [exact grow_trans| |].
Ltac grow_ret := apply preserves_ret; exact grow_refl.

Lemma grow_create_remix : forall ip, respects ledgers_grow (create_remix ip).
Proof.
  intros ip. unfold create_remix, now.
  grow_bind; [grow|intros licensed].
  grow_bind.
  - destruct (find_license ip licensed); [grow|].
    grow_bind; [apply grow_license_external_ip|intros ?].
    grow.
  - intros tok. grow.
Qed.

Lemma grow_claim : respects ledgers_grow claim_accumulated_royalties.
Proof. unfold claim_accumulated_royalties. grow. Qed.

Lemma grow_execute_task : forall t, respects ledgers_grow (execute_task t).
Proof.
  intros t. unfold execute_task. grow_try; [|intros e; grow_ret].
  unfold dispatch, _generate_content_task, _license_ip_task,
    _create_remix_task, _claim_royalties_task.
  repeat match goal with
         | |- respects _ (if ?b then _ else _) => destruct b
         end;
    try (apply preserves_raise; exact grow_refl);
    (grow_bind; [|intros ?; grow_ret]).
  - apply grow_generate_content.
  - apply grow_license_external_ip.
  - apply grow_create_remix.
  - apply grow_claim.
Qed.

Lemma grow_after_get : forall t, respects ledgers_grow (after_get t).
Proof.
  intros t. unfold after_get, record_execution, now.
  grow_try; [|intros e; grow_ret].
  grow_bind; [apply grow_execute_task|intros r].
  grow_bind; [apply preserves_observe; exact grow_world|intros stamp].
  grow_bind; [intros s; now apply grow_same|intros _].
  grow_bind; [intros s; now apply grow_same|intros _].
  grow_bind; [apply preserves_attr; exact grow_refl|intros h].
  destruct (history_limit <? List.length h)%nat;
    [intros s; now apply grow_same|grow_ret].
Qed.

Lemma step_grows : forall ev s,
  ledgers_grow s.(agent_state) (step ev s).(agent_state).
Proof.
  intros ev s. destruct ev; cbn [step].
  - simpl. unfold start, bind, update, now, observe. simpl.
    destruct (E.(utcnow) _). now apply grow_same.
  - now apply grow_same.
  - simpl. unfold add_task, bind, update, lift. simpl.
    destruct (subscript t "type"); now apply grow_same.
  - apply grow_claim.
  - unfold resume.
    destruct (nth_error s.(loops) i) as [[| |t|]|]; try apply grow_refl.
    + destruct (is_active _); apply grow_refl.
    + destruct (tasks_queue _); [apply grow_refl|now apply grow_same].
    + apply grow_after_get.
  - destruct (nth_error s.(loops) i) as [[| |t|]|]; apply grow_refl.
  - now apply grow_same.
Qed.

Lemma run_grows : forall evs s,
  ledgers_grow s.(agent_state) (run evs s).(agent_state).
Proof.
  induction evs as [|ev evs IH]; intros s; [apply grow_refl|].
  rewrite run_cons. eapply grow_trans; [apply step_grows|apply IH].
Qed.

(** X2.  Whatever the calls and the interleaving, nothing is ever taken
    out of [licensed_ips] or [created_derivatives], and nothing in them is
    changed: the ledgers of a later state are those of the earlier one
    with new entries at the end. *)
Theorem ledgers_only_grow :
  forall evs s,
    (exists l,
        (run evs s).(agent_state).(self).(licensed_ips)
        = (s.(agent_state).(self).(licensed_ips) ++ l)%list)
    /\ (exists d,
           (run evs s).(agent_state).(self).(created_derivatives)
           = (s.(agent_state).(self).(created_derivatives) ++ d)%list).
Proof.
  intros evs s. destruct (run_grows evs s) as (H1 & H2 & _).
  split; assumption.
Qed.

(** ** Further properties: the status *)

Lemma new_agent_schedule : forall idol meta cfg w a w',
  new_agent idol meta cfg w = (inr a, w') ->
  a.(posting_schedule)
  = _generate_posting_schedule a.(content_strategy)
      (fst (E.(utcnow) (snd (E.(utcnow) w)))).
Proof.
  intros idol meta cfg w a w' H. unfold new_agent in H.
  destruct (E.(utcnow) w) as [created w1].
  destruct cfg as [c|]; [|discriminate].
  destruct (get_default c "content_strategy" _); try discriminate.
  simpl. destruct (E.(utcnow) w1) as [current w2].
  injection H as <- _. reflexivity.
Qed.

Lemma _get_next_post_time_run : forall st,
  _get_next_post_time st
  = (inr match
           filter (fun t => fst (E.(utcnow) st.(world)) <? t)
             st.(self).(posting_schedule)
         with
         | [] => None
         | t :: _ => Some (E.(isoformat) t)
         end,
     {| self := st.(self); world := snd (E.(utcnow) st.(world));
        calls := st.(calls) |}).
Proof.
  intros st. unfold _get_next_post_time, bind, now, observe, attr, ret.
  destruct (E.(utcnow) st.(world)) as [t w]. simpl.
  destruct (filter _ _); reflexivity.
Qed.

Lemma run_keeps_schedule : forall evs s,
  (run evs s).(agent_state).(self).(posting_schedule)
  = s.(agent_state).(self).(posting_schedule).
Proof.
  intros evs s. now destruct (run_grows evs s) as (_ & _ & H & _).
Qed.

(** X3.  For an agent from its construction on, whatever has happened
    since, [_get_next_post_time] returns: the ISO form of the earliest slot
    of the schedule that is later than the clock, or [None] when no slot
    is later than the clock. *)
Theorem next_post_time_is_the_earliest_later_slot :
  forall idol meta cfg w a w' evs,
    new_agent idol meta cfg w = (inr a, w') ->
    let st := (run evs (boot a w')).(agent_state) in
    let clock := fst (E.(utcnow) st.(world)) in
    (exists t,
        fst (_get_next_post_time st) = inr (Some (E.(isoformat) t))
        /\ In t a.(posting_schedule) /\ clock < t
        /\ forall t', In t' a.(posting_schedule) -> clock < t' -> t <= t')
    \/ (fst (_get_next_post_time st) = inr None
        /\ forall t', In t' a.(posting_schedule) -> t' <= clock).
Proof.
  intros idol meta cfg w a w' evs Hnew st clock.
  rewrite _get_next_post_time_run. simpl.
  assert (Hsched : st.(self).(posting_schedule) = a.(posting_schedule))
    by apply run_keeps_schedule.
  rewrite Hsched. fold clock.
  assert (Hsorted : StronglySorted Z.le a.(posting_schedule)).
  { rewrite (new_agent_schedule _ _ _ _ Hnew).
    unfold _generate_posting_schedule. apply schedule_sorted.
    unfold hour.
    destruct (interval_hours_cases
                (get_default a.(content_strategy) "posting_frequency"
                   (VStr "2_hours")))
      as [(-> & _)|[(-> & _)|(-> & _)]]; lia. }
  destruct (filter (fun t => clock <? t) a.(posting_schedule))
    as [|t rest] eqn:Hf.
  - right. split; [reflexivity|]. intros t' Hin.
    pose proof (filter_nil_all _ _ Hf t' Hin) as H. simpl in H. lia.
  - left. exists t.
    destruct (sorted_filter_head _ Hsorted Hf) as (Hin & Hp & Hmin).
    split; [reflexivity|]. split; [exact Hin|]. split; [lia|].
    intros t' Hin' Hlt. apply Hmin; [exact Hin'|]. lia.
Qed.

(** X4.  The schedule is built once, in [__init__]: from 24 hours after the
    construction on, whatever has happened since, [_get_next_post_time]
    returns [None]. *)
Theorem next_post_time_ends_after_a_day :
  forall idol meta cfg w a w' evs,
    new_agent idol meta cfg w = (inr a, w') ->
    let st := (run evs (boot a w')).(agent_state) in
    fst (E.(utcnow) (snd (E.(utcnow) w))) + 24 * hour
    <= fst (E.(utcnow) st.(world)) ->
    fst (_get_next_post_time st) = inr None.
Proof.
  intros idol meta cfg w a w' evs Hnew st Hclock.
  rewrite _get_next_post_time_run. simpl.
  assert (Hsched : st.(self).(posting_schedule) = a.(posting_schedule))
    by apply run_keeps_schedule.
  rewrite Hsched, (new_agent_schedule _ _ _ _ Hnew).
  match goal with
  | |- context [filter ?p ?l] =>
      assert (Hnil : filter p l = []); [|now rewrite Hnil]
  end.
  apply filter_none. intros t Hin.
  pose proof (schedule_within_a_day _ _ _ Hin) as Hwin.
  apply Z.ltb_ge. lia.
Qed.

Lemma get_status_run : forall st,
  let w1 := snd (E.(utcnow) st.(world)) in
  get_status st
  = (inr {| status_agent_id := st.(self).(agent_id);
            status_idol_id := st.(self).(idol_id);
            status_is_active := st.(self).(is_active);
            status_last_activity :=
              option_map E.(isoformat) st.(self).(last_activity);
            content_created := List.length st.(self).(created_derivatives);
            licenses_held := List.length st.(self).(licensed_ips);
            next_post_time :=
              match
                filter (fun t => fst (E.(utcnow) st.(world)) <? t)
                  st.(self).(posting_schedule)
              with
              | [] => None
              | t :: _ => Some (E.(isoformat) t)
              end;
            status_metrics :=
              {| metrics_agent_id := st.(self).(agent_id);
                 metrics_is_active := st.(self).(is_active);
                 metrics_created_at := E.(isoformat) st.(self).(created_at);
                 metrics_last_activity :=
                   option_map E.(isoformat) st.(self).(last_activity);
                 tasks_in_queue := List.length st.(self).(tasks_queue);
                 tasks_executed :=
                   List.length st.(self).(execution_history);
                 uptime_seconds :=
                   total_seconds
                     (fst (E.(utcnow) w1) - st.(self).(created_at)) |} |},
     {| self := st.(self); world := snd (E.(utcnow) w1);
        calls := st.(calls) |}).
Proof.
  intros st w1. subst w1. unfold get_status, bind, attr, ret.
  rewrite _get_next_post_time_run, get_metrics_run. reflexivity.
Qed.

(** X5.  [get_status] returns, leaves the agent as it is and sends no
    request.  Its record names the agent and the idol, carries the flag
    and the last activity, counts the derivatives on record as
    [content_created] and the licenses on record as [licenses_held], and
    holds what [_get_next_post_time] and then [get_metrics] return. *)
Theorem get_status_reads_the_agent :
  forall st,
    exists r st',
      get_status st = (inr r, st')
      /\ st'.(self) = st.(self)
      /\ st'.(calls) = st.(calls)
      /\ r.(status_agent_id) = st.(self).(agent_id)
      /\ r.(status_idol_id) = st.(self).(idol_id)
      /\ r.(status_is_active) = st.(self).(is_active)
      /\ r.(status_last_activity)
         = option_map E.(isoformat) st.(self).(last_activity)
      /\ r.(content_created) = List.length st.(self).(created_derivatives)
      /\ r.(licenses_held) = List.length st.(self).(licensed_ips)
      /\ fst (_get_next_post_time st) = inr r.(next_post_time)
      /\ fst (get_metrics (snd (_get_next_post_time st)))
         = inr r.(status_metrics).
Proof.
  intros st. eexists _, _. split; [apply get_status_run|].
  rewrite !get_metrics_run, !_get_next_post_time_run. simpl.
  repeat split.
Qed.

(** ** Further properties: the queue and the loops under any interleaving *)

Lemma step_conserves : forall ev s,
  ((step ev s).(dequeued) ++ queue (step ev s))%list
  = ((s.(dequeued) ++ queue s) ++ added [ev])%list.
Proof.
  intros ev s. destruct ev; cbn [step].
  - destruct (step_start s) as (Q & _ & _ & _ & D).
    cbn [step] in Q, D. rewrite Q, D. simpl. now rewrite app_nil_r.
  - unfold queue. simpl. now rewrite app_nil_r.
  - destruct (step_add_task t s) as (Q & _ & _ & _ & D).
    cbn [step] in Q, D. rewrite Q, D. simpl. now rewrite app_assoc.
  - destruct (claim_same_base s.(agent_state)) as (_ & Q & _).
    unfold queue. simpl. now rewrite Q, app_nil_r.
  - simpl. rewrite app_nil_r. unfold resume.
    destruct (nth_error s.(loops) i) as [[| |t|]|] eqn:Hpos;
      try reflexivity.
    + now destruct (is_active _).
    + unfold queue.
      destruct s.(agent_state).(self).(tasks_queue) as [|t rest] eqn:Hq.
      * now rewrite Hq.
      * simpl. now rewrite <- app_assoc.
    + destruct (after_get_spec t s.(agent_state))
        as (_ & _ & _ & _ & _ & _ & Q & _).
      unfold queue. simpl. now rewrite Q.
  - simpl. rewrite app_nil_r.
    now destruct (nth_error s.(loops) i) as [[| |t|]|].
  - unfold queue. simpl. now rewrite app_nil_r.
Qed.

(** X6.  Whatever the calls and the interleaving, with any number of
    loops, no task is lost and none is handed over twice: the tasks handed
    over so far, followed by the tasks still in the queue, are the tasks
    that were there before followed by the tasks enqueued since, in the
    order of their enqueueing. *)
Theorem tasks_are_pending_or_handed_over :
  forall evs s,
    ((run evs s).(dequeued) ++ queue (run evs s))%list
    = ((s.(dequeued) ++ queue s) ++ added evs)%list.
Proof.
  induction evs as [|ev evs IH]; intros s.
  - simpl. now rewrite app_nil_r.
  - rewrite run_cons, IH, step_conserves, (added_cons ev evs).
    now rewrite <- !app_assoc.
Qed.

Lemma length_set_nth : forall (A : Type) i (x : A) l,
  List.length (set_nth i x l) = List.length l.
Proof.
  intros A i x l. revert i.
  induction l as [|y l IH]; intros [|i]; simpl; auto.
Qed.

Lemma step_loops : forall ev s,
  List.length (step ev s).(loops)
  = (List.length s.(loops) + starts [ev])%nat.
Proof.
  intros ev s. unfold starts. destruct ev; cbn [step]; simpl; try lia.
  - rewrite length_app. simpl. lia.
  - unfold resume.
    destruct (nth_error s.(loops) i) as [[| |t|]|]; simpl;
      try rewrite length_set_nth; try lia.
    + destruct (is_active _); simpl; rewrite length_set_nth; lia.
    + destruct (tasks_queue _); simpl; try rewrite length_set_nth; lia.
  - destruct (nth_error s.(loops) i) as [[| |t|]|]; simpl;
      try rewrite length_set_nth; lia.
Qed.

(** X7.  Every call of [start] launches one more loop and nothing ever
    takes a loop away, a finished one included: the number of loops of an
    agent is the number it had plus the number of calls of [start]. *)
Theorem every_start_launches_a_loop :
  forall evs s,
    List.length (run evs s).(loops)
    = (List.length s.(loops) + starts evs)%nat.
Proof.
  induction evs as [|ev evs IH]; intros s.
  - simpl. unfold starts. simpl. lia.
  - rewrite run_cons, IH, step_loops. unfold starts. simpl.
    destruct ev; simpl; lia.
Qed.


Lemma running_set_nth : forall ls i p q,
  nth_error ls i = Some p ->
  (running (set_nth i q ls) + in_hand p = running ls + in_hand q)%nat.
Proof.
  unfold running, in_hand.
  induction ls as [|x ls IH]; intros [|i] p q H; simpl in *;
    try discriminate.
  - injection H as ->. destruct (is_running p), (is_running q); simpl; lia.
  - specialize (IH i p q H). destruct (is_running x); simpl; lia.
Qed.

Lemma running_positive : forall ls i t,
  nth_error ls i = Some (Running t) -> (1 <= running ls)%nat.
Proof.
  unfold running.
  induction ls as [|x ls IH]; intros [|i] t H; simpl in *; try discriminate.
  - injection H as ->. simpl. lia.
  - specialize (IH i t H). destruct (is_running x); simpl; lia.
Qed.

#[local] Arguments Nat.min : simpl never.

Lemma step_accounted : forall ev s, accounted s -> accounted (step ev s).
Proof.
  intros ev s (Hle & Hlen). unfold accounted.
  destruct ev; cbn [step].
  - destruct (step_start s) as (_ & Hh & _ & Hl & Hd). cbn [step] in *.
    rewrite Hh, Hl, Hd. unfold running in *. rewrite filter_app. simpl.
    rewrite app_nil_r. auto.
  - auto.
  - destruct (step_add_task t s) as (_ & Hh & _ & Hl & Hd). cbn [step] in *.
    rewrite Hh, Hl, Hd. auto.
  - destruct (claim_same_base s.(agent_state)) as (_ & _ & Hh & _).
    unfold history in *. simpl. rewrite Hh. auto.
  - unfold resume.
    destruct (nth_error s.(loops) i) as [[| |t|]|] eqn:Hpos; auto.
    + pose proof (running_set_nth s.(loops) i Waiting Hpos) as H1.
      pose proof (running_set_nth s.(loops) i Finished Hpos) as H2.
      unfold in_hand in H1, H2. simpl in H1, H2.
      destruct (is_active _); unfold history in *; simpl; split; lia.
    + destruct s.(agent_state).(self).(tasks_queue) as [|t rest]; auto.
      pose proof (running_set_nth s.(loops) i (Running t) Hpos) as H1.
      unfold in_hand in H1. simpl in H1.
      unfold history in *. simpl. rewrite length_app. simpl. split; lia.
    + pose proof (running_set_nth s.(loops) i LoopTest Hpos) as H1.
      pose proof (running_positive s.(loops) i Hpos) as H2.
      unfold in_hand in H1. simpl in H1.
      destruct (after_get_spec t s.(agent_state))
        as (result & st1 & stamp & _ & _ & _ & _ & Hh).
      unfold history in *. simpl. rewrite Hh, last_n_length, length_app.
      simpl. split; lia.
  - destruct (nth_error s.(loops) i) as [[| |t|]|] eqn:Hpos; auto.
    pose proof (running_set_nth s.(loops) i LoopTest Hpos) as H1.
    unfold in_hand in H1. simpl in H1.
    unfold history in *. simpl. split; lia.
  - auto.
Qed.

Lemma run_accounted : forall evs s, accounted s -> accounted (run evs s).
Proof.
  induction evs as [|ev evs IH]; intros s H; [exact H|].
  rewrite run_cons. apply IH, step_accounted, H.
Qed.

(** X8.  For an agent from its construction on, whatever the calls and
    the interleaving, with any number of loops: the history holds as many
    entries as tasks have been handed over and are no longer in the hand
    of a loop, up to 100.  So every task that a loop takes leaves its
    entry when the loop is done with it, and [tasks_executed] of the
    metrics is that number, capped at 100. *)
Theorem history_accounts_for_completed_tasks :
  forall idol meta cfg w a w' evs,
    new_agent idol meta cfg w = (inr a, w') ->
    let s := run evs (boot a w') in
    (running s.(loops) <= List.length s.(dequeued))%nat
    /\ List.length (history s)
       = Nat.min 100 (List.length s.(dequeued) - running s.(loops))
    /\ exists m st',
         get_metrics s.(agent_state) = (inr m, st')
         /\ m.(tasks_executed)
            = Nat.min 100 (List.length s.(dequeued) - running s.(loops)).
Proof.
  intros idol meta cfg w a w' evs Hnew s.
  destruct (new_agent_fresh _ _ _ _ Hnew) as (_ & _ & Hh & _).
  assert (H0 : accounted (boot a w')).
  { unfold accounted, history. simpl. rewrite Hh. simpl.
    unfold running, history_limit. simpl. split; lia. }
  destruct (run_accounted evs H0) as (H1 & H2). fold s in H1, H2.
  split; [exact H1|]. split; [exact H2|].
  rewrite get_metrics_run. eexists _, _. split; [reflexivity|]. exact H2.
Qed.

(** ** Further properties: licenses and remixes *)

(** X9.  [license_external_ip] sends one request, the mint of one token
    for the target addressed to the idol, whether or not the target
    already has an entry.  When it returns, [licensed_ips] has one entry
    more, for the target, with the [license_token_ids] of the result; when
    it raises, [licensed_ips] is as before.  [created_derivatives] is as
    before in both cases. *)
Theorem license_external_ip_records_the_mint :
  forall target st,
    let out := license_external_ip target st in
    new_calls st (snd out)
    = [MintLicenseTokens target 1 (VStr st.(self).(idol_id))]
    /\ (snd out).(self).(created_derivatives)
       = st.(self).(created_derivatives)
    /\ match fst out with
       | inr minted =>
           exists tokens stamp,
             lookup "license_token_ids" minted = Some tokens
             /\ (snd out).(self).(licensed_ips)
                = (st.(self).(licensed_ips)
                     ++ [{| lic_ip_id := target;
                            lic_license_tokens := tokens;
                            lic_licensed_at := stamp |}])%list
       | inl _ =>
           (snd out).(self).(licensed_ips) = st.(self).(licensed_ips)
       end.
Proof.
  intros target st out. subst out.
  destruct (license_external_ip target st) as [r st'] eqn:H. simpl.
  unfold license_external_ip, subscript in H. unfold_monad H.
  repeat split_innermost H; finish_run H.
  all: calls_from_start; (split; [reflexivity|]); (split; [reflexivity|]).
  all: try reflexivity.
  eexists _, _. split; [eassumption|reflexivity].
Qed.

Lemma find_license_app : forall style l more existing,
  find_license style l = Some existing ->
  find_license style (l ++ more) = Some existing.
Proof.
  intros style l more existing. unfold find_license.
  induction l as [|x l IH]; simpl; [discriminate|].
  destruct (eqv x.(lic_ip_id) style); auto.
Qed.

(** X10.  The entry that [create_remix] finds for a style IP never
    changes: once [licensed_ips] has an entry for the IP, the first such
    entry stays the one found whatever happens later, so a license minted
    later for the same IP is never the one used. *)
Theorem first_license_is_used_for_ever :
  forall evs s style existing,
    find_license style s.(agent_state).(self).(licensed_ips) = Some existing ->
    find_license style (run evs s).(agent_state).(self).(licensed_ips)
    = Some existing.
Proof.
  intros evs s style existing H.
  destruct (run_grows evs s) as ((l & Hl) & _).
  rewrite Hl. now apply find_license_app.
Qed.

(** X11.  When [create_remix] returns, its result is the answer of the
    derivative registration and has an [ip_id]; [created_derivatives] has
    one record more, with that [ip_id], the content type ["remix"] and the
    style IP; and the requests it has sent end with the style application,
    the upload of the metadata of the remix and the registration under the
    idol with one license token, in this order, after at most the mint. *)
Theorem create_remix_success_is_recorded :
  forall style st r st',
    create_remix style st = (inr r, st') ->
    exists ip stamp before data hash meta tok,
      lookup "ip_id" r = Some ip
      /\ st'.(self).(created_derivatives)
         = (st.(self).(created_derivatives)
              ++ [{| der_ip_id := ip; der_content_type := VStr "remix";
                     der_style_ip := Some style; der_created_at := stamp;
                     der_metadata := None |}])%list
      /\ new_calls st st'
         = (before
              ++ [ApplyStyle (VStr st.(self).(idol_id)) style
                    remix_parameters;
                  UploadJson data;
                  CreateDerivativeContent (VStr st.(self).(idol_id)) meta
                    (Some [tok])])%list
      /\ lookup "metadata_uri" meta = Some (VStr ("ipfs://" ++ hash))
      /\ (before = []
          \/ before
             = [MintLicenseTokens style 1 (VStr st.(self).(idol_id))]).
Proof.
  intros style st r st' H.
  unfold create_remix, license_external_ip, subscript in H. unfold_monad H.
  repeat split_innermost H; try discriminate H; finish_run H.
  - eexists _, _, [], _, _, _, _.
    split; [eassumption|]. split; [reflexivity|].
    split; [calls_from_start; reflexivity|].
    split; [reflexivity|]. now left.
  - eexists _, _, [_], _, _, _, _.
    split; [eassumption|]. split; [reflexivity|].
    split; [calls_from_start; reflexivity|].
    split; [reflexivity|]. now right.
Qed.

(** X12.  A [create_remix] task is read for its [style_ip_id] and nothing
    else: two tasks with the same [style_ip_id] do the same, and every
    style application that the task sends is for the idol and that style
    IP with strength 0.7 and the identity preserved, whatever
    [parameters] the task carries. *)
Theorem remix_task_parameters_are_ignored :
  forall t st,
    (forall t',
        get t' "style_ip_id" = get t "style_ip_id" ->
        _create_remix_task t' st = _create_remix_task t st)
    /\ (forall c,
           In c (new_calls st (snd (_create_remix_task t st))) ->
           is_apply_style c = true ->
           c = ApplyStyle (VStr st.(self).(idol_id)) (get t "style_ip_id")
                 remix_parameters).
Proof.
  intros t st. split.
  - intros t' Heq. unfold _create_remix_task. now rewrite Heq.
  - intros c.
    destruct (_create_remix_task t st) as [r st'] eqn:H. simpl.
    unfold _create_remix_task, create_remix, license_external_ip, subscript
      in H.
    unfold_monad H.
    repeat split_innermost H; finish_run H.
    all: try (rewrite (@new_calls_app _ _ []
                         ltac:(simpl; now rewrite app_nil_r));
              intros []).
    all: calls_from_start; intros Hin Hc; simpl in Hin.
    all: repeat (destruct Hin as [Hin|Hin];
                 [subst c; try discriminate; try reflexivity|]);
      try contradiction.
Qed.

(** ** Further properties: content generation *)


#[local] Arguments Nat.modulo : simpl never.

(** X13.  [generate_content] with a content type that is true as a
    condition asks the content generator first, for that type and with the
    name, the personality and the style of the idol.  With [None], the
    empty string or another false value it draws the type from
    [content_types] of the strategy: the first request then asks for a
    member of that list; without the key it raises [KeyError] and with an
    empty list [IndexError], in both cases before any request and with the
    agent as it was. *)
Theorem generate_content_picks_its_type :
  forall ct st,
    let out := generate_content ct st in
    (truthy ct = true ->
     exists rest,
       new_calls st (snd out)
       = CreateContent (content_params_of st.(self) ct) :: rest)
    /\ (truthy ct = false ->
        forall l,
          lookup "content_types" st.(self).(content_strategy)
          = Some (VList l) ->
          l <> [] ->
          exists c rest,
            In c l
            /\ new_calls st (snd out)
               = CreateContent (content_params_of st.(self) c) :: rest)
    /\ (truthy ct = false ->
        lookup "content_types" st.(self).(content_strategy) = None ->
        out = (inl (KeyError (VStr "content_types")), st))
    /\ (truthy ct = false ->
        lookup "content_types" st.(self).(content_strategy)
        = Some (VList []) ->
        fst out = inl (IndexError "Cannot choose from an empty sequence")
        /\ (snd out).(self) = st.(self)
        /\ (snd out).(calls) = st.(calls)).
Proof.
  intros ct st out. subst out. unfold content_params_of.
  split; [|split; [|split]].
  - intros Ht. destruct (generate_content ct st) as [r st'] eqn:H. simpl.
    unfold generate_content, subscript in H. rewrite Ht in H.
    unfold_monad H.
    repeat split_innermost H; finish_run H.
    all: calls_from_start; eexists; reflexivity.
  - intros Ht l Hl Hne.
    destruct (generate_content ct st) as [r st'] eqn:H. simpl.
    destruct l as [|x l]; [contradiction|].
    unfold generate_content, random_choice, subscript, len, item in H.
    rewrite Ht in H. unfold_monad H. rewrite Hl in H. simpl in H.
    destruct (E.(randbelow) (S (List.length l)) st.(world)) as [i w1] eqn:Hr.
    simpl in H.
    destruct (nth_error (x :: l) (i mod S (List.length l))) as [c|] eqn:Hc.
    2:{ apply nth_error_None in Hc. simpl in Hc.
        pose proof (Nat.mod_upper_bound i (S (List.length l))). lia. }
    apply nth_error_In in Hc. simpl in H.
    repeat split_innermost H; finish_run H.
    all: calls_from_start; eexists c, _; (split; [exact Hc|reflexivity]).
  - intros Ht Hl. unfold generate_content, subscript, bind, attr, lift, ret.
    rewrite Ht. simpl. now rewrite Hl.
  - intros Ht Hl.
    unfold generate_content, random_choice, subscript, len, bind, attr, lift,
      ret, raise.
    rewrite Ht. simpl. rewrite Hl. simpl. destruct st. repeat split.
Qed.

(** When the content generator raises, [generate_content] raises the same
    exception after this one request. *)
Lemma generate_content_generator_raises : forall ct st e w1,
  truthy ct = true ->
  E.(create_content) (content_params_of st.(self) ct) st.(world)
  = (inl e, w1) ->
  generate_content ct st
  = (inl e,
     {| self := st.(self); world := w1;
        calls :=
          (st.(calls) ++ [CreateContent (content_params_of st.(self) ct)])%list
     |}).
Proof.
  intros ct st e w1 Ht Hc. unfold content_params_of in Hc.
  unfold generate_content, bind, attr, ret, request. rewrite Ht. simpl.
  now rewrite Hc.
Qed.

Lemma generate_content_draws : forall ct st l i w1 c,
  truthy ct = false ->
  lookup "content_types" st.(self).(content_strategy) = Some (VList l) ->
  E.(randbelow) (List.length l) st.(world) = (i, w1) ->
  nth_error l (i mod List.length l) = Some c ->
  forall e w2,
    E.(create_content) (content_params_of st.(self) c) w1 = (inl e, w2) ->
    generate_content ct st
    = (inl e,
       {| self := st.(self); world := w2;
          calls :=
            (st.(calls) ++ [CreateContent (content_params_of st.(self) c)])%list
       |}).
Proof.
  intros ct st l i w1 c Ht Hl Hr Hc e w2 Hg. unfold content_params_of in Hg.
  destruct l as [|x l];
    [simpl in Hc; destruct (i mod 0)%nat; discriminate|].
  unfold generate_content, random_choice, subscript, len, item, bind, attr,
    lift, ret, request, observe.
  rewrite Ht. simpl. rewrite Hl. simpl. simpl in Hr. rewrite Hr. simpl.
  simpl in Hc. rewrite Hc. simpl. now rewrite Hg.
Qed.

(** ** Further properties: the results in the history *)

Lemma execute_task_has_status : forall t st r st',
  execute_task t st = (inr r, st') -> has_status r.
Proof.
  intros t st r st' H. unfold execute_task, try_except in H.
  destruct (dispatch t st) as [[e|x] s1] eqn:Hd.
  - injection H as <- _. now right.
  - injection H as <- _. left.
    unfold dispatch, _generate_content_task, _license_ip_task,
      _create_remix_task, _claim_royalties_task, bind, ret, raise in Hd.
    repeat match type of Hd with
           | context [if ?b then _ else _] => destruct b
           end;
      try discriminate;
      match type of Hd with
      | context [match ?m with _ => _ end] => destruct m as [[e'|y] s2]
      end;
      try discriminate; injection Hd as <- _; reflexivity.
Qed.

Lemma Forall_skipn : forall (A : Type) (P : A -> Prop) k l,
  Forall P l -> Forall P (skipn k l).
Proof.
  intros A P k. induction k as [|k IH]; intros l H; [exact H|].
  destruct H; simpl; [constructor|]. now apply IH.
Qed.

Lemma step_statuses : forall ev s,
  Forall (fun e => has_status e.(h_result)) (history s) ->
  Forall (fun e => has_status e.(h_result)) (history (step ev s)).
Proof.
  intros ev s H.
  destruct (step_history ev s) as [Heq|(i & t & r0 & stamp0 & -> & Hpos & _)];
    [now rewrite Heq|].
  destruct (resume_running s i Hpos) as (result & st1 & Hx & Hh & _).
  rewrite Hh. unfold last_n. apply Forall_skipn, Forall_app. split; [exact H|].
  constructor; [|constructor]. simpl. eapply execute_task_has_status, Hx.
Qed.

(** X14.  For an agent from its construction on, whatever the calls and
    the interleaving, every entry of the history has a result whose
    [status] is ["success"] or ["error"]. *)
Theorem history_results_have_a_status :
  forall idol meta cfg w a w' evs,
    new_agent idol meta cfg w = (inr a, w') ->
    Forall
      (fun e =>
         lookup "status" e.(h_result) = Some (VStr "success")
         \/ lookup "status" e.(h_result) = Some (VStr "error"))
      (history (run evs (boot a w'))).
Proof.
  intros idol meta cfg w a w' evs Hnew.
  destruct (new_agent_fresh _ _ _ _ Hnew) as (_ & _ & Hh & _).
  assert (H0 : Forall (fun e => has_status e.(h_result)) (history (boot a w'))).
  { unfold history. simpl. rewrite Hh. constructor. }
  revert H0. generalize (boot a w').
  induction evs as [|ev evs IH]; intros s H0; [exact H0|].
  rewrite run_cons. apply IH, step_statuses, H0.
Qed.

(** ** Further properties: the helpers of the analytics route *)

Lemma total_count_up : forall k counts,
  total_count (count_up k counts) = total_count counts + 1.
Proof.
  intros k counts. induction counts as [|[k' n] rest IH]; simpl.
  - reflexivity.
  - destruct (eqv k' k); simpl; lia.
Qed.

Lemma count_content_total : forall derivatives counts,
  Forall (fun d => hashable d.(der_content_type) = true) derivatives ->
  exists result,
    count_content derivatives counts = inr result
    /\ total_count result
       = total_count counts + Z.of_nat (List.length derivatives).
Proof.
  induction derivatives as [|d ds IH]; intros counts H.
  - exists counts. simpl. split; [reflexivity|lia].
  - inversion H as [|? ? Hd Hds]; subst. cbn [count_content]. rewrite Hd.
    destruct (IH (count_up d.(der_content_type) counts) Hds)
      as (result & Hr & Ht).
    exists result. split; [exact Hr|].
    rewrite Ht, total_count_up. cbn [List.length]. lia.
Qed.

Lemma count_content_unhashable : forall before d after counts,
  Forall (fun x => hashable x.(der_content_type) = true) before ->
  hashable d.(der_content_type) = false ->
  count_content (before ++ d :: after) counts
  = inl (unhashable d.(der_content_type)).
Proof.
  induction before as [|x xs IH]; intros d after counts Hbefore Hd.
  - cbn [app count_content]. rewrite Hd. reflexivity.
  - inversion Hbefore as [|? ? Hx Hxs]; subst.
    cbn [app count_content]. rewrite Hx. now apply IH.
Qed.

(** X15.  [_count_content_by_type] returns counts that add up to the
    number of derivatives, one of them the empty dict for no derivative,
    as long as every content type can be the key of a dict; when one of
    them is a list or a dict it raises the [TypeError] of the first
    such, whatever follows it. *)
Theorem content_counts_add_up :
  forall derivatives,
    (Forall (fun d => hashable d.(der_content_type) = true) derivatives ->
     exists counts,
       _count_content_by_type derivatives = inr counts
       /\ total_count counts = Z.of_nat (List.length derivatives))
    /\ (forall before d after,
           derivatives = (before ++ d :: after)%list ->
           Forall (fun x => hashable x.(der_content_type) = true) before ->
           hashable d.(der_content_type) = false ->
           _count_content_by_type derivatives
           = inl (TypeError
                    ("unhashable type: '"
                       ++ type_name d.(der_content_type) ++ "'"))).
Proof.
  intros derivatives. split.
  - intros H. destruct (count_content_total [] H) as (counts & Hr & Ht).
    exists counts. split; [exact Hr|]. simpl in Ht. lia.
  - intros before d after -> Hbefore Hd.
    now apply count_content_unhashable.
Qed.

Lemma latest_of_spec : forall l best,
  In (latest_of best l) (best :: l)
  /\ forall d,
       In d (best :: l) ->
       d.(der_created_at) <= (latest_of best l).(der_created_at).
Proof.
  induction l as [|x l IH]; intros best; simpl.
  - split; [now left|]. intros d [<-|[]]. lia.
  - destruct (best.(der_created_at) <? x.(der_created_at)) eqn:Hlt.
    + destruct (IH x) as (Hin & Hmax). split.
      * right. exact Hin.
      * intros d [<-|Hd]; [|now apply Hmax].
        apply Z.ltb_lt in Hlt.
        specialize (Hmax x (or_introl eq_refl)). lia.
    + destruct (IH best) as (Hin & Hmax). split.
      * destruct Hin as [<-|Hin]; [now left|right; now right].
      * intros d [<-|[<-|Hd]].
        -- apply Hmax. now left.
        -- apply Z.ltb_ge in Hlt.
           specialize (Hmax best (or_introl eq_refl)). lia.
        -- apply Hmax. now right.
Qed.

(** X16.  [_get_last_content_time] returns [None] for no derivative and
    otherwise the ISO form of the [created_at] of one of the derivatives,
    which no other derivative exceeds: the latest creation time, wherever
    it stands in the list. *)
Theorem last_content_time_is_the_latest :
  forall derivatives,
    (derivatives = [] -> _get_last_content_time derivatives = None)
    /\ (derivatives <> [] ->
        exists d,
          In d derivatives
          /\ _get_last_content_time derivatives
             = Some (E.(isoformat) d.(der_created_at))
          /\ forall d',
               In d' derivatives ->
               d'.(der_created_at) <= d.(der_created_at)).
Proof.
  intros derivatives. split.
  - now intros ->.
  - intros Hne. destruct derivatives as [|first rest]; [contradiction|].
    destruct (latest_of_spec rest first) as (Hin & Hmax).
    exists (latest_of first rest). repeat split; assumption.
Qed.

(** ** Further properties: the royalty sweep *)

Lemma collect_one_spec : forall a sw,
  (collect_one a sw).(sweep_calls)
  = (sw.(sweep_calls) ++ if collects a then [royalty_request a] else [])%list
  /\ sw.(agents_processed) <= (collect_one a sw).(agents_processed)
     <= sw.(agents_processed) + (if collects a then 1 else 0).
Proof.
  intros a sw. unfold collect_one, collects, royalty_request.
  destruct a.(is_active) eqn:Ha; simpl.
  2:{ rewrite app_nil_r. split; [reflexivity|lia]. }
  destruct a.(created_derivatives) as [|d ds] eqn:Hd; simpl.
  { rewrite app_nil_r. split; [reflexivity|lia]. }
  unfold claim_accumulated_royalties, bind, attr, request. simpl.
  rewrite Hd.
  destruct (E.(claim_royalties) _ _ _) as [[e|result] w1]; simpl.
  - split; [reflexivity|lia].
  - destruct (eqv (get result "status") (VStr "no_derivatives")); simpl.
    + split; [reflexivity|lia].
    + destruct (int_add _ _); simpl; (split; [reflexivity|lia]).
Qed.

Lemma sweep_spec : forall agents sw,
  let sw' := fold_left (fun sw a => collect_one a sw) agents sw in
  sw'.(sweep_calls)
  = (sw.(sweep_calls) ++ map royalty_request (filter collects agents))%list
  /\ sw.(agents_processed) <= sw'.(agents_processed)
     <= sw.(agents_processed)
        + Z.of_nat (List.length (filter collects agents)).
Proof.
  induction agents as [|a agents IH]; intros sw; simpl.
  - rewrite app_nil_r. split; [reflexivity|lia].
  - destruct (IH (collect_one a sw)) as (Hc & Hp).
    destruct (collect_one_spec a sw) as (Hc1 & Hp1).
    cbv zeta in Hc, Hp. rewrite Hc, Hc1.
    destruct (collects a); simpl.
    + rewrite <- app_assoc. simpl. split; [reflexivity|].
      rewrite Zpos_P_of_succ_nat. lia.
    + rewrite app_nil_r. split; [reflexivity|lia].
Qed.

(** X17.  One sweep of [royalty_collection] sends one royalty claim for
    every agent of the registry that is active and has a derivative on
    record, in the order of the registry, and no other request: an agent
    that is stopped or has no derivative is skipped, and a claim that
    raises does not keep the sweep from the agents after it.  The agents
    it reports as processed are at most as many as it has claimed for. *)
Theorem royalty_collection_claims_for_active_agents :
  forall agent_registry w,
    let agents := map snd agent_registry in
    let out := royalty_collection agent_registry w in
    (snd out).(sweep_calls) = map royalty_request (filter collects agents)
    /\ 0 <= (snd out).(agents_processed)
       <= Z.of_nat (List.length (filter collects agents))
    /\ fst out
       = [("status", VStr "completed");
          ("agents_processed", VInt (snd out).(agents_processed));
          ("total_claimed", VInt (snd out).(total_claimed))].
Proof.
  intros agent_registry w agents out. subst out. unfold royalty_collection.
  destruct (sweep_spec agents
              {| total_claimed := 0; agents_processed := 0;
                 sweep_world := w; sweep_calls := [] |}) as (Hc & Hp).
  cbv zeta in Hc, Hp. simpl in Hc, Hp. fold agents.
  simpl. split; [exact Hc|]. split; [lia|reflexivity].
Qed.

(** ** Further properties: the counts by content type *)

Lemma eqv_keys : forall a b c,
  hashable a = true -> hashable b = true -> hashable c = true ->
  eqv a b = true -> eqv a c = eqv b c.
Proof.
  intros a b c Ha Hb Hc H.
  destruct a, b, c; simpl in *; try discriminate; try reflexivity;
    repeat match goal with
           | H : Bool.eqb _ _ = true |- _ => apply Bool.eqb_prop in H; subst
           | H : (_ =? _) = true |- _ => apply Z.eqb_eq in H; subst
           | H : String.eqb _ _ = true |- _ =>
               apply String.eqb_eq in H; subst
           end;
    try reflexivity;
    repeat match goal with
           | b : bool |- _ => destruct b
           end;
    reflexivity.
Qed.

Lemma eqv_sym_keys : forall a b,
  hashable a = true -> hashable b = true -> eqv a b = eqv b a.
Proof.
  intros a b Ha Hb.
  destruct a as [|x|n|s|l|d], b as [|y|m|t|l'|d']; simpl in *;
    try discriminate; try reflexivity.
  - destruct x, y; reflexivity.
  - apply Z.eqb_sym.
  - apply Z.eqb_sym.
  - apply Z.eqb_sym.
  - apply String.eqb_sym.
Qed.

Lemma count_of_count_up : forall k k0 counts,
  hashable k = true -> hashable k0 = true ->
  Forall (fun kn => hashable (fst kn) = true) counts ->
  count_of k (count_up k0 counts)
  = count_of k counts + (if eqv k0 k then 1 else 0).
Proof.
  intros k k0 counts Hk Hk0 H.
  induction H as [|[k' n] rest Hk' _ IH]; simpl.
  - destruct (eqv k0 k); lia.
  - simpl in Hk'. destruct (eqv k' k0) eqn:H0; simpl.
    + rewrite (eqv_keys k' k0 k Hk' Hk0 Hk H0).
      destruct (eqv k0 k); lia.
    + destruct (eqv k' k) eqn:H1; [|exact IH].
      assert (H2 : eqv k0 k = false).
      { rewrite (eqv_sym_keys k0 k Hk0 Hk).
        rewrite <- (eqv_keys k' k k0 Hk' Hk Hk0 H1). exact H0. }
      rewrite H2. lia.
Qed.

Lemma count_up_keys : forall k0 counts,
  hashable k0 = true ->
  Forall (fun kn => hashable (fst kn) = true) counts ->
  Forall (fun kn => hashable (fst kn) = true) (count_up k0 counts).
Proof.
  intros k0 counts Hk0 H. induction H as [|[k' n] rest Hk' Hrest IH]; simpl.
  - constructor; [exact Hk0|constructor].
  - destruct (eqv k' k0); constructor; assumption.
Qed.

Lemma count_content_per_type : forall derivatives counts result k,
  hashable k = true ->
  Forall (fun kn => hashable (fst kn) = true) counts ->
  count_content derivatives counts = inr result ->
  count_of k result
  = count_of k counts
    + Z.of_nat
        (List.length
           (filter (fun d => eqv d.(der_content_type) k) derivatives)).
Proof.
  induction derivatives as [|d ds IH]; intros counts result k Hk Hc H.
  - simpl in H. injection H as <-. simpl. lia.
  - cbn [count_content] in H.
    destruct (hashable d.(der_content_type)) eqn:Hd; [|discriminate].
    rewrite (IH _ _ k Hk (@count_up_keys _ _ Hd Hc) H).
    rewrite (@count_of_count_up _ _ _ Hk Hd Hc). simpl.
    destruct (eqv d.(der_content_type) k); simpl; lia.
Qed.

(** X20.  When [_count_content_by_type] returns, the count it holds for a
    content type is the number of derivatives of that type, equal types
    being those that [==] holds equal; it is 0 for a type that no
    derivative has. *)
Theorem content_counts_are_per_type :
  forall derivatives counts k,
    _count_content_by_type derivatives = inr counts ->
    hashable k = true ->
    count_of k counts
    = Z.of_nat
        (List.length
           (filter (fun d => eqv d.(der_content_type) k) derivatives)).
Proof.
  intros derivatives counts k H Hk.
  rewrite (@count_content_per_type derivatives [] counts k Hk (Forall_nil _) H).
  reflexivity.
Qed.

(** ** Further properties: what is not validated *)

(** X21.  [add_task] puts every task at the end of the queue and changes
    nothing else; it returns when the task has a [type], whatever its
    value, and raises [KeyError] when it has none. *)
Theorem add_task_returns_iff_typed :
  forall t st,
    (snd (add_task t st)).(self)
    = set_tasks_queue (st.(self).(tasks_queue) ++ [t]) st.(self)
    /\ (snd (add_task t st)).(world) = st.(world)
    /\ (snd (add_task t st)).(calls) = st.(calls)
    /\ (fst (add_task t st) = inr tt <-> exists v, lookup "type" t = Some v)
    /\ (fst (add_task t st) = inl (KeyError (VStr "type"))
        <-> lookup "type" t = None).
Proof.
  intros t st. unfold add_task, bind, update, lift, subscript, ret. simpl.
  destruct (lookup "type" t) as [v|]; simpl; repeat split;
    try discriminate; eauto.
  - intros (v' & H). discriminate.
Qed.

Lemma license_external_ip_calls : forall target st,
  new_calls st (snd (license_external_ip target st))
  = [MintLicenseTokens target 1 (VStr st.(self).(idol_id))].
Proof.
  intros target st.
  destruct (license_external_ip target st) as [r st'] eqn:H. simpl.
  unfold license_external_ip, subscript in H. unfold_monad H.
  repeat split_innermost H; finish_run H.
  all: calls_from_start; reflexivity.
Qed.

(** X22.  A [license_ip] task is not checked for its target: it sends one
    request, the mint of one license token for whatever the task holds
    under [target_ip_id], and for [None] when the task has no such key. *)
Theorem license_task_mints_for_any_target :
  forall t st,
    get t "type" = VStr "license_ip" ->
    new_calls st (snd (execute_task t st))
    = [MintLicenseTokens (get t "target_ip_id") 1 (VStr st.(self).(idol_id))]
    /\ (lookup "target_ip_id" t = None ->
        new_calls st (snd (execute_task t st))
        = [MintLicenseTokens VNone 1 (VStr st.(self).(idol_id))]).
Proof.
  intros t st Hty.
  assert (H : new_calls st (snd (execute_task t st))
              = [MintLicenseTokens (get t "target_ip_id") 1
                   (VStr st.(self).(idol_id))]).
  { pose proof (license_external_ip_calls (get t "target_ip_id") st) as Hc.
    unfold execute_task, try_except, dispatch. rewrite Hty. simpl.
    unfold _license_ip_task, bind, ret.
    destruct (license_external_ip (get t "target_ip_id") st) as [[e|r] st'];
      exact Hc. }
  split; [exact H|]. intros Hnone. rewrite H. unfold get. now rewrite Hnone.
Qed.

(** X23.  [IdolAgent(...)] without a config, which is the default of the
    parameter, raises [AttributeError], and so does a config whose
    [content_strategy] is not a dict.  With a config that has a dict as
    [content_strategy] the agent is built with that strategy, and with a
    config without the key it is built with the default strategy;
    the agent is stopped and its queue, history and ledgers are empty. *)
Theorem new_agent_needs_a_config :
  forall idol meta w,
    (exists w',
        new_agent idol meta None w
        = (inl (AttributeError "'NoneType' object has no attribute 'get'"),
           w'))
    /\ (forall c v,
           lookup "content_strategy" c = Some v ->
           (forall d, v <> VDict d) ->
           exists w',
             new_agent idol meta (Some c) w
             = (inl (AttributeError
                       ("'" ++ type_name v
                          ++ "' object has no attribute 'get'")), w'))
    /\ (forall c,
           (lookup "content_strategy" c = None
            \/ exists d, lookup "content_strategy" c = Some (VDict d)) ->
           exists a w',
             new_agent idol meta (Some c) w = (inr a, w')
             /\ a.(content_strategy)
                = match lookup "content_strategy" c with
                  | Some (VDict d) => d
                  | _ => default_content_strategy meta
                  end
             /\ a.(config) = c
             /\ a.(is_active) = false /\ a.(tasks_queue) = []
             /\ a.(execution_history) = [] /\ a.(licensed_ips) = []
             /\ a.(created_derivatives) = []).
Proof.
  intros idol meta w. unfold new_agent, get_default.
  destruct (E.(utcnow) w) as [created w1].
  split; [eexists; reflexivity|]. split.
  - intros c v Hv Hnot. rewrite Hv.
    destruct v; try (eexists; reflexivity).
    exfalso. eapply Hnot. reflexivity.
  - intros c [Hc|(d & Hc)]; rewrite Hc;
      destruct (E.(utcnow) w1) as [current w2];
      eexists _, _; repeat split.
Qed.

End Agent.

(** ** The claims on the stub environment *)

Lemma agent0_new :
  new_agent Stub.env "0xabc" [] (Some []) 0%nat = (inr Stub.agent0, 0%nat).
Proof. reflexivity. Qed.

(** C1 on the stub: 101 tasks, then a look at the history. *)
Lemma history_never_exceeds_limit_witness :
  new_agent Stub.env "0xabc" [] (Some []) 0%nat = (inr Stub.agent0, 0%nat)
  /\ (List.length
        (history
           (run Stub.env
              (map (@CallAddTask Stub.world) (Stub.tasks 101)
                 ++ CallStart :: drain 101)
              (boot Stub.agent0 0%nat))) <= 100)%nat.
Proof.
  split; [reflexivity|].
  exact (proj1
           (@history_never_exceeds_limit _ Stub.env "0xabc" [] (Some [])
              0%nat Stub.agent0 0%nat eq_refl) _).
Defined.

(** C2 as stated fails: the agent is started with an empty queue, its loop
    enters the wait, [stop] is called, and a task enqueued after that is
    handed over to the loop. *)
Lemma task_dequeued_after_stop :
  let stopped :=
    run Stub.env [CallStart; Resume 0; CallStop] (boot Stub.agent0 0%nat) in
  let later :=
    run Stub.env [CallAddTask (Stub.remix_task "s1"); Resume 0] stopped in
  active stopped = false
  /\ stopped.(dequeued) = []
  /\ later.(dequeued) = [Stub.remix_task "s1"]
  /\ queue later = []
  /\ later.(dequeued) <> stopped.(dequeued).
Proof.
  vm_compute. repeat split. discriminate.
Qed.

(** C2 as amended, on the stub: one loop in its wait at the [stop], two
    tasks enqueued afterwards. *)
Lemma stop_bounds_further_dequeues_witness :
  let s := run Stub.env [CallStart; Resume 0] (boot Stub.agent0 0%nat) in
  let evs :=
    [CallAddTask (Stub.remix_task "s1"); Resume 0; Resume 0; Resume 0;
     CallAddTask (Stub.remix_task "s2"); Resume 0] in
  Forall (fun ev : @event Stub.world => ev <> CallStart) evs
  /\ exists k,
       (k <= 1)%nat
       /\ queue (run Stub.env evs (step Stub.env CallStop s))
          = skipn k [Stub.remix_task "s1"; Stub.remix_task "s2"].
Proof.
  intros s evs.
  assert (H : Forall (fun ev : @event Stub.world => ev <> CallStart) evs)
    by (repeat constructor; discriminate).
  split; [exact H|].
  destruct (@stop_bounds_further_dequeues _ Stub.env s evs H)
    as (k & Hk & _ & Hq & _).
  exists k. split; [exact Hk|exact Hq].
Defined.


(** C4 on the stub: a fresh agent, and the agent after one remix. *)
Lemma claim_royalties_short_circuits_witness :
  let fresh := (boot Stub.agent0 0%nat).(agent_state) in
  let busy := snd (create_remix Stub.env (VStr "s1") fresh) in
  claim_accumulated_royalties Stub.env fresh
  = (inr [("status", VStr "no_derivatives"); ("claimed", VInt 0)], fresh)
  /\ busy.(self).(created_derivatives) <> []
  /\ (snd (claim_accumulated_royalties Stub.env busy)).(calls)
     = (busy.(calls) ++ [ClaimRoyalties (VStr "0xabc") [VStr "child"]])%list.
Proof.
  intros fresh busy.
  assert (H : busy.(self).(created_derivatives) <> [])
    by (vm_compute; discriminate).
  split; [|split; [exact H|]].
  - exact (proj1 (proj1 (@claim_royalties_short_circuits _ Stub.env fresh)
                    eq_refl)).
  - exact (proj2 (proj2 (proj2
             (proj2 (@claim_royalties_short_circuits _ Stub.env busy) H)))).
Defined.

(** C6 on the stub: the failing input. *)
Lemma add_task_raises_without_type_witness :
  lookup "type" Stub.untyped_task = None
  /\ fst (add_task Stub.untyped_task (boot Stub.agent0 0%nat).(agent_state))
     = inl (KeyError (VStr "type"))
  /\ (snd (add_task Stub.untyped_task
             (boot Stub.agent0 0%nat).(agent_state))).(self).(tasks_queue)
     = [Stub.untyped_task].
Proof.
  pose proof (@add_task_raises_without_type Stub.world Stub.untyped_task
                (boot Stub.agent0 0%nat).(agent_state) eq_refl) as H.
  split; [reflexivity|]. split.
  - exact (f_equal fst H).
  - exact (f_equal (fun r => (snd r).(self).(tasks_queue)) H).
Defined.

(** C7 on the stub: a type that no handler knows. *)
Lemma unknown_task_type_is_an_error_result_witness :
  let t := [("type", VStr "dance")] in
  ~ In (get t "type") known_types
  /\ execute_task Stub.env t (boot Stub.agent0 0%nat).(agent_state)
     = (inr [("status", VStr "error");
             ("error", VStr "Unknown task type: dance")],
        (boot Stub.agent0 0%nat).(agent_state)).
Proof.
  intros t.
  assert (H : ~ In (get t "type") known_types).
  { simpl. intros [F|[F|[F|[F|[]]]]]; discriminate. }
  split; [exact H|].
  exact (proj1 (proj2 (@unknown_task_type_is_an_error_result _ Stub.env t
                         (boot Stub.agent0 0%nat).(agent_state))) H).
Defined.

(** C8 as stated fails: 101 tasks are enqueued and drained, and the
    history holds 100 entries. *)
Lemma history_shorter_than_the_tasks :
  let ts := Stub.tasks 101 in
  let s :=
    run Stub.env
      (map (@CallAddTask Stub.world) ts ++ CallStart :: drain (List.length ts))
      (boot Stub.agent0 0%nat) in
  List.length ts = 101%nat
  /\ queue s = []
  /\ List.length (history s) = 100%nat
  /\ List.length (history s) <> List.length ts.
Proof.
  vm_compute. repeat split. discriminate.
Qed.

(** C8 as amended, on the stub: a remix, then a royalty claim that runs
    on what the remix has left. *)
Lemma drained_tasks_run_once_in_order_witness :
  let ts := [Stub.remix_task "s1"; Stub.royalty_task 0] in
  let after k :=
    run Stub.env (map (@CallAddTask Stub.world) ts ++ CallStart :: drain k)
      (boot Stub.agent0 0%nat) in
  let holding := run Stub.env [Resume 0; Resume 0] (after 1%nat) in
  new_agent Stub.env "0xabc" [] (Some []) 0%nat = (inr Stub.agent0, 0%nat)
  /\ (after 2%nat).(dequeued) = ts
  /\ holding.(loops) = [Running (Stub.royalty_task 0)]
  /\ exists result st1,
       execute_task Stub.env (Stub.royalty_task 0) holding.(agent_state)
       = (inr result, st1)
       /\ (after 2%nat).(agent_state).(calls) = st1.(calls)
       /\ (after 2%nat).(agent_state).(world)
          = snd (Stub.env.(utcnow) st1.(world))
       /\ (after 2%nat).(agent_state).(self).(licensed_ips)
          = st1.(self).(licensed_ips)
       /\ (after 2%nat).(agent_state).(self).(created_derivatives)
          = st1.(self).(created_derivatives)
       /\ history (after 2%nat)
          = last_n 100
              (history (after 1%nat)
                 ++ [{| h_task := Stub.royalty_task 0; h_result := result;
                        h_timestamp :=
                          fst (Stub.env.(utcnow) st1.(world)) |}]).
Proof.
  intros ts after holding.
  pose proof (@drained_tasks_run_once_in_order _ Stub.env "0xabc" [] (Some [])
                0%nat Stub.agent0 0%nat ts eq_refl) as H.
  cbv beta zeta in H.
  destruct H as (H1 & _ & _ & _ & _ & _ & _ & _ & H2).
  destruct (H2 1%nat (Stub.royalty_task 0) eq_refl) as (H3 & _ & _ & H4).
  split; [reflexivity|]. split; [exact H1|]. split; [exact H3|]. exact H4.
Defined.

(** C10 on the stub: the mixer is down for the style IP ["broken"]. *)
Lemma failed_remix_keeps_the_license_witness :
  let st := (boot Stub.agent0 0%nat).(agent_state) in
  let st' := snd (create_remix Stub.env (VStr "broken") st) in
  find_license (VStr "broken") st.(self).(licensed_ips) = None
  /\ create_remix Stub.env (VStr "broken") st = (inl (External "mixer down"), st')
  /\ existsb is_apply_style (new_calls st st') = true
  /\ st'.(self).(created_derivatives) = []
  /\ filter is_mint
       (new_calls st' (snd (create_remix Stub.env (VStr "broken") st'))) = [].
Proof.
  intros st st'.
  assert (H1 : find_license (VStr "broken") st.(self).(licensed_ips) = None)
    by reflexivity.
  assert (H2 : create_remix Stub.env (VStr "broken") st
               = (inl (External "mixer down"), st'))
    by reflexivity.
  assert (H3 : existsb is_apply_style (new_calls st st') = true)
    by reflexivity.
  repeat (split; [assumption|]).
  destruct (@failed_remix_keeps_the_license _ Stub.env (VStr "broken") st
              _ st' H1 H2 H3) as (_ & Hder & _ & Hretry).
  split; [exact Hder|].
  apply (Hretry st' []). now rewrite app_nil_r.
Defined.

(** ** Further properties: the agent with its [ContentGenerator] *)

(** X18.  When the content generator of the agent is a [ContentGenerator],
    a [generate_content] task that names a content type other than
    ["image"], ["text"] and ["video"] ends in the error record
    ["Unsupported content type: ..."]: the content generator has been
    asked, no generator has run, nothing has been uploaded or registered,
    and the agent is as before. *)
Theorem unsupported_content_type_is_an_error :
  forall (W : Type) (E : Env W) (G : Generators W) t st,
    get t "type" = VStr "generate_content" ->
    truthy (get t "content_type") = true ->
    ~ In (get t "content_type") [VStr "image"; VStr "text"; VStr "video"] ->
    execute_task (with_content_generator E G) t st
    = (inr [("status", VStr "error");
            ("error",
             VStr ("Unsupported content type: "
                     ++ str E (get t "content_type")))],
       {| self := st.(self); world := st.(world);
          calls :=
            (st.(calls)
               ++ [CreateContent
                     (content_params_of st.(self) (get t "content_type"))])%list
       |}).
Proof.
  intros W E G t st Hty Ht Hnot.
  apply (@execute_task_of_dispatch W (with_content_generator E G) t st
           (ValueError
              ("Unsupported content type: " ++ str E (get t "content_type")))).
  unfold dispatch. rewrite Hty. simpl.
  unfold _generate_content_task, bind.
  rewrite (@generate_content_generator_raises W (with_content_generator E G)
             (get t "content_type") st
             (ValueError
                ("Unsupported content type: "
                   ++ str E (get t "content_type")))
             st.(world) Ht); [reflexivity|].
  cbn [with_content_generator create_content].
  unfold ContentGenerator_create_content, content_params_of, get_default.
  simpl.
  rewrite !eqv_str_false; [reflexivity| | |];
    intros Heq; apply Hnot; rewrite Heq; simpl; tauto.
Qed.

(** X19.  With the content types ["image", "text", "remix"], which are
    those of the default strategy and those that the idol creation route
    passes, and a [ContentGenerator] as content generator, a
    [generate_content] task that names no content type ends in the error
    record ["Unsupported content type: remix"] whenever the draw falls on
    the third type; nothing has been uploaded or registered then. *)
Theorem drawn_remix_is_unsupported :
  forall (W : Type) (E : Env W) (G : Generators W) t st i w1,
    get t "type" = VStr "generate_content" ->
    truthy (get t "content_type") = false ->
    lookup "content_types" st.(self).(content_strategy)
    = Some (VList [VStr "image"; VStr "text"; VStr "remix"]) ->
    E.(randbelow) 3%nat st.(world) = (i, w1) ->
    (i mod 3 = 2)%nat ->
    execute_task (with_content_generator E G) t st
    = (inr [("status", VStr "error");
            ("error", VStr "Unsupported content type: remix")],
       {| self := st.(self); world := w1;
          calls :=
            (st.(calls)
               ++ [CreateContent (content_params_of st.(self) (VStr "remix"))])%list
       |}).
Proof.
  intros W E G t st i w1 Hty Ht Hl Hr Hi.
  apply (@execute_task_of_dispatch W (with_content_generator E G) t st
           (ValueError "Unsupported content type: remix")).
  unfold dispatch. rewrite Hty. simpl.
  unfold _generate_content_task, bind.
  rewrite (@generate_content_draws W (with_content_generator E G)
             (get t "content_type") st
             [VStr "image"; VStr "text"; VStr "remix"] i w1 (VStr "remix")
             Ht Hl Hr
             ltac:(simpl List.length; rewrite Hi; reflexivity)
             (ValueError "Unsupported content type: remix") w1);
    reflexivity.
Qed.

(** The further properties on the stub environment. *)

Lemma next_post_time_is_the_earliest_later_slot_witness :
  let st :=
    (run Stub.on_the_clock [CallStart; WorldMoves (fun _ => 7200000001)]
       (boot Stub.agent0 0)).(agent_state) in
  new_agent Stub.on_the_clock "0xabc" [] (Some []) 0 = (inr Stub.agent0, 0)
  /\ ((exists t,
          fst (_get_next_post_time Stub.on_the_clock st)
          = inr (Some (Stub.on_the_clock.(isoformat) t))
          /\ In t Stub.agent0.(posting_schedule)
          /\ 7200000001 < t
          /\ forall t',
               In t' Stub.agent0.(posting_schedule) ->
               7200000001 < t' -> t <= t')
      \/ (fst (_get_next_post_time Stub.on_the_clock st) = inr None
          /\ forall t',
               In t' Stub.agent0.(posting_schedule) -> t' <= 7200000001)).
Proof.
  split; [reflexivity|].
  exact (@next_post_time_is_the_earliest_later_slot _ Stub.on_the_clock
           "0xabc" [] (Some []) 0 Stub.agent0 0
           [CallStart; WorldMoves (fun _ => 7200000001)] eq_refl).
Defined.

Lemma next_post_time_ends_after_a_day_witness :
  new_agent Stub.on_the_clock "0xabc" [] (Some []) 0 = (inr Stub.agent0, 0)
  /\ fst (_get_next_post_time Stub.on_the_clock
            (run Stub.on_the_clock [WorldMoves (fun _ => 86400000000)]
               (boot Stub.agent0 0)).(agent_state))
     = inr None.
Proof.
  split; [reflexivity|].
  apply (@next_post_time_ends_after_a_day _ Stub.on_the_clock "0xabc" []
           (Some []) 0 Stub.agent0 0
           [WorldMoves (fun _ => 86400000000)] eq_refl).
  vm_compute. discriminate.
Defined.

Lemma history_accounts_for_completed_tasks_witness :
  let s :=
    run Stub.env
      [CallAddTask (Stub.remix_task "s1"); CallStart; Resume 0; Resume 0;
       Resume 0; CallAddTask Stub.untyped_task; Resume 0; Resume 0]
      (boot Stub.agent0 0%nat) in
  new_agent Stub.env "0xabc" [] (Some []) 0%nat = (inr Stub.agent0, 0%nat)
  /\ List.length (history s)
     = Nat.min 100 (List.length s.(dequeued) - running s.(loops)).
Proof.
  split; [reflexivity|].
  exact (proj1 (proj2
           (@history_accounts_for_completed_tasks _ Stub.env "0xabc" []
              (Some []) 0%nat Stub.agent0 0%nat _ eq_refl))).
Defined.

Lemma first_license_is_used_for_ever_witness :
  let s :=
    run Stub.env
      [CallAddTask (Stub.remix_task "s1"); CallStart; Resume 0; Resume 0;
       Resume 0]
      (boot Stub.agent0 0%nat) in
  let evs :=
    [CallAddTask (Stub.license_task "s1"); Resume 0; Resume 0; Resume 0] in
  let first :=
    {| lic_ip_id := VStr "s1"; lic_license_tokens := VList [VInt 0];
       lic_licensed_at := 1 |} in
  find_license (VStr "s1") s.(agent_state).(self).(licensed_ips) = Some first
  /\ List.length (run Stub.env evs s).(agent_state).(self).(licensed_ips)
     = 2%nat
  /\ find_license (VStr "s1")
       (run Stub.env evs s).(agent_state).(self).(licensed_ips)
     = Some first.
Proof.
  intros s evs first.
  assert (H : find_license (VStr "s1") s.(agent_state).(self).(licensed_ips)
              = Some first) by reflexivity.
  split; [exact H|]. split; [reflexivity|].
  exact (@first_license_is_used_for_ever _ Stub.env evs s (VStr "s1") first H).
Defined.

Lemma create_remix_success_is_recorded_witness :
  let st := (boot Stub.agent0 0%nat).(agent_state) in
  let r := [("ip_id", VStr "child"); ("tx", VInt 3)] in
  let st' := snd (create_remix Stub.env (VStr "s1") st) in
  create_remix Stub.env (VStr "s1") st = (inr r, st')
  /\ exists ip stamp,
       lookup "ip_id" r = Some ip
       /\ st'.(self).(created_derivatives)
          = [{| der_ip_id := ip; der_content_type := VStr "remix";
                der_style_ip := Some (VStr "s1"); der_created_at := stamp;
                der_metadata := None |}].
Proof.
  intros st r st'.
  assert (H : create_remix Stub.env (VStr "s1") st = (inr r, st'))
    by reflexivity.
  split; [exact H|].
  destruct (@create_remix_success_is_recorded _ Stub.env (VStr "s1") st r st'
              H) as (ip & stamp & _ & _ & _ & _ & _ & H1 & H2 & _).
  exists ip, stamp. split; [exact H1|exact H2].
Defined.

Lemma generate_content_picks_its_type_witness :
  let st := (boot Stub.agent0 0%nat).(agent_state) in
  truthy (VStr "image") = true
  /\ exists rest,
       new_calls st (snd (generate_content Stub.env (VStr "image") st))
       = CreateContent (content_params_of Stub.agent0 (VStr "image")) :: rest.
Proof.
  intros st. split; [reflexivity|].
  exact (proj1 (@generate_content_picks_its_type _ Stub.env (VStr "image") st)
           eq_refl).
Defined.

Lemma history_results_have_a_status_witness :
  new_agent Stub.env "0xabc" [] (Some []) 0%nat = (inr Stub.agent0, 0%nat)
  /\ Forall
       (fun e =>
          lookup "status" e.(h_result) = Some (VStr "success")
          \/ lookup "status" e.(h_result) = Some (VStr "error"))
       (history
          (run Stub.env
             ([CallAddTask (Stub.remix_task "broken");
               CallAddTask (Stub.royalty_task 0); CallStart] ++ drain 2)
             (boot Stub.agent0 0%nat))).
Proof.
  split; [reflexivity|].
  exact (@history_results_have_a_status _ Stub.env "0xabc" [] (Some [])
           0%nat Stub.agent0 0%nat _ eq_refl).
Defined.

Lemma create_remix_mints_only_without_license_witness :
  let fresh := {| self := Stub.agent0; world := 0%nat; calls := [] |} in
  let licensed :=
    {| self := Stub.licensed_agent; world := 0%nat; calls := [] |} in
  let idol := VStr "0xabc" in
  new_calls fresh (snd (create_remix Stub.env (VStr "s1") fresh))
  = [MintLicenseTokens (VStr "s1") 1 idol;
     ApplyStyle idol (VStr "s1") remix_parameters;
     UploadJson (VDict []);
     CreateDerivativeContent idol (remix_metadata (VStr "remix") "Qm")
       (Some [VInt 0])]
  /\ new_calls licensed (snd (create_remix Stub.env (VStr "s1") licensed))
     = [ApplyStyle idol (VStr "s1") remix_parameters;
        UploadJson (VDict []);
        CreateDerivativeContent idol (remix_metadata (VStr "remix") "Qm")
          (Some [VInt 7])].
Proof.
  intros fresh licensed idol. split.
  - assert (Hnone : forall lic,
               In lic fresh.(self).(licensed_ips) ->
               eqv lic.(lic_ip_id) (VStr "s1") = false)
      by (intros lic []).
    exact (proj2
             (proj1 (@create_remix_mints_only_without_license _ Stub.env
                       (VStr "s1") fresh) Hnone)
             [("license_token_ids", VList [VInt 0])] 1%nat (VList [VInt 0])
             (VInt 0) [("ip_id", VStr "remix"); ("metadata", VDict [])]
             2%nat (VDict []) (VStr "remix") "Qm" 3%nat
             eq_refl eq_refl eq_refl eq_refl eq_refl eq_refl eq_refl).
  - assert (Hbefore : forall lic,
               In lic [{| lic_ip_id := VStr "s0";
                          lic_license_tokens := VList [VInt 5];
                          lic_licensed_at := 1 |}] ->
               eqv lic.(lic_ip_id) (VStr "s1") = false)
      by (intros lic [<-|[]]; reflexivity).
    exact (proj2
             (proj2
                (proj2 (@create_remix_mints_only_without_license _ Stub.env
                          (VStr "s1") licensed)
                   [{| lic_ip_id := VStr "s0";
                       lic_license_tokens := VList [VInt 5];
                       lic_licensed_at := 1 |}]
                   {| lic_ip_id := VStr "s1";
                        lic_license_tokens := VList [VInt 7; VInt 8];
                        lic_licensed_at := 2 |}
                   [{| lic_ip_id := VStr "s1";
                       lic_license_tokens := VList [VInt 9];
                       lic_licensed_at := 3 |}]
                   eq_refl Hbefore eq_refl))
             (VInt 7) [("ip_id", VStr "remix"); ("metadata", VDict [])]
             1%nat (VDict []) (VStr "remix") "Qm" 2%nat
             eq_refl eq_refl eq_refl eq_refl eq_refl).
Defined.

Lemma content_counts_add_up_witness :
  (Forall (fun d => hashable d.(der_content_type) = true) Stub.derivatives3
   /\ exists counts,
        _count_content_by_type Stub.derivatives3 = inr counts
        /\ total_count counts = 3)
  /\ _count_content_by_type (Stub.derivatives3 ++ Stub.odd_derivatives)
     = inl (TypeError "unhashable type: 'list'").
Proof.
  assert (H : Forall (fun d => hashable d.(der_content_type) = true)
                Stub.derivatives3)
    by (repeat constructor).
  split.
  - split; [exact H|].
    exact (proj1 (content_counts_add_up Stub.derivatives3) H).
  - exact (proj2 (content_counts_add_up
                    (Stub.derivatives3 ++ Stub.odd_derivatives))
             Stub.derivatives3 _ _ eq_refl H eq_refl).
Defined.

Lemma last_content_time_is_the_latest_witness :
  Stub.derivatives3 <> []
  /\ exists d,
       In d Stub.derivatives3
       /\ _get_last_content_time Stub.env Stub.derivatives3
          = Some (Stub.env.(isoformat) d.(der_created_at))
       /\ forall d',
            In d' Stub.derivatives3 ->
            d'.(der_created_at) <= d.(der_created_at).
Proof.
  assert (H : Stub.derivatives3 <> []) by discriminate.
  split; [exact H|].
  exact (proj2 (@last_content_time_is_the_latest _ Stub.env Stub.derivatives3)
           H).
Defined.

Lemma content_counts_are_per_type_witness :
  _count_content_by_type Stub.derivatives3
  = inr [(VStr "remix", 2); (VStr "image", 1)]
  /\ hashable (VStr "remix") = true
  /\ count_of (VStr "remix") [(VStr "remix", 2); (VStr "image", 1)]
     = Z.of_nat
         (List.length
            (filter (fun d => eqv d.(der_content_type) (VStr "remix"))
               Stub.derivatives3)).
Proof.
  split; [reflexivity|]. split; [reflexivity|].
  exact (@content_counts_are_per_type Stub.derivatives3 _ (VStr "remix")
           eq_refl eq_refl).
Defined.

Lemma unsupported_content_type_is_an_error_witness :
  let t := [("type", VStr "generate_content"); ("content_type", VStr "remix")] in
  let st := (boot Stub.agent0 0%nat).(agent_state) in
  get t "type" = VStr "generate_content"
  /\ truthy (get t "content_type") = true
  /\ ~ In (get t "content_type") [VStr "image"; VStr "text"; VStr "video"]
  /\ fst (execute_task (with_content_generator Stub.env Stub.generators) t st)
     = inr [("status", VStr "error");
            ("error", VStr "Unsupported content type: remix")].
Proof.
  intros t st.
  assert (H : ~ In (get t "content_type")
                [VStr "image"; VStr "text"; VStr "video"]).
  { simpl. intros [F|[F|[F|[]]]]; discriminate. }
  split; [reflexivity|]. split; [reflexivity|]. split; [exact H|].
  exact (f_equal fst
           (@unsupported_content_type_is_an_error _ Stub.env Stub.generators
              t st eq_refl eq_refl H)).
Defined.

Lemma drawn_remix_is_unsupported_witness :
  let t := [("type", VStr "generate_content"); ("scheduled", VBool true)] in
  let st := (boot Stub.agent0 0%nat).(agent_state) in
  let E := Stub.env_drawing 2 in
  get t "type" = VStr "generate_content"
  /\ truthy (get t "content_type") = false
  /\ E.(randbelow) 3%nat st.(world) = (2%nat, 0%nat)
  /\ fst (execute_task (with_content_generator E Stub.generators) t st)
     = inr [("status", VStr "error");
            ("error", VStr "Unsupported content type: remix")].
Proof.
  intros t st E.
  split; [reflexivity|]. split; [reflexivity|]. split; [reflexivity|].
  exact (f_equal fst
           (@drawn_remix_is_unsupported _ E Stub.generators t st 2%nat 0%nat
              eq_refl eq_refl eq_refl eq_refl eq_refl)).
Defined.

Lemma license_task_mints_for_any_target_witness :
  let t := [("type", VStr "license_ip")] in
  let st := (boot Stub.agent0 0%nat).(agent_state) in
  get t "type" = VStr "license_ip"
  /\ lookup "target_ip_id" t = None
  /\ new_calls st (snd (execute_task Stub.env t st))
     = [MintLicenseTokens VNone 1 (VStr "0xabc")].
Proof.
  intros t st. split; [reflexivity|]. split; [reflexivity|].
  exact (proj2 (@license_task_mints_for_any_target _ Stub.env t st eq_refl)
           eq_refl).
Defined.
